(** * GitHub top-repositories scraper: collection, aggregation and batched load

    Shallow embedding of [task2_and_task3/main.py] and
    [task2_and_task3/db_actions.py].

    Decoded JSON is modelled as the Python values [json.loads] produces
    ([None], [bool], [int], [str], [list], [dict]); JSON numbers are
    restricted to integers.  Python exceptions are an explicit error type
    and every operation that can raise returns a [Result].  The remote API
    is an oracle from logical request to response; the ClickHouse client is
    a log of attempted and committed inserts together with a fault oracle. *)

From stdpp Require Import base option list strings gmap fin_maps.
From Stdlib Require Import ZArith Lia.

Local Open Scope Z_scope.

(** ** Python values *)

#[warnings="-register-all"]
Inductive json : Type :=
| JNull
| JBool (b : bool)
| JInt (z : Z)
| JStr (s : string)
| JArr (l : list json)
| JObj (m : gmap string json).

(** Exceptions raised along the modelled paths. [ClientError] stands for
    [aiohttp.ClientError] (non-2xx status through [raise_for_status], or a
    transport failure); [ChError] for whatever [ChClient.execute] raises. *)
Inductive PyExc : Type :=
| KeyError (key : string)
| TypeError
| AttributeError
| ValueError
| ClientError (status : Z)
| ChError (msg : string).

Inductive Result (A : Type) : Type :=
| Ok (a : A)
| Err (e : PyExc).
Arguments Ok {A} a.
Arguments Err {A} e.

#[global] Instance Result_ret : MRet Result := fun _ a => Ok a.
#[global] Instance Result_bind : MBind Result :=
  fun _ _ f r => match r with Ok a => f a | Err e => Err e end.

Definition is_ok {A} (r : Result A) : bool :=
  match r with Ok _ => true | Err _ => false end.

(** [bool(v)] *)
Definition py_truthy (v : json) : bool :=
  match v with
  | JNull => false
  | JBool b => b
  | JInt z => negb (z =? 0)
  | JStr s => negb (String.eqb s "")
  | JArr l => match l with [] => false | _ => true end
  | JObj m => match map_to_list m with [] => false | _ => true end
  end.

(** [d.get(key, default)]: only a dict has [.get]. *)
Definition py_get (d : json) (key : string) (default : json) : Result json :=
  match d with
  | JObj m => Ok (match m !! key with Some v => v | None => default end)
  | _ => Err AttributeError
  end.

(** [d[key]] with a string key: [KeyError] on a dict without the key,
    [TypeError] on every other value (lists and strings want integer
    indices, the rest is not subscriptable). *)
Definition py_getitem (d : json) (key : string) : Result json :=
  match d with
  | JObj m => match m !! key with Some v => Ok v | None => Err (KeyError key) end
  | _ => Err TypeError
  end.

(** [len(v)]; the callers only need it to succeed. A string is measured
    in bytes. *)
Definition py_len (v : json) : Result Z :=
  match v with
  | JArr l => Ok (Z.of_nat (length l))
  | JObj m => Ok (Z.of_nat (size m))
  | JStr s => Ok (Z.of_nat (String.length s))
  | _ => Err TypeError
  end.

(** The elements a [for] loop visits: the items of a list, the keys of a
    dict, the one-character strings of a string (here one per byte). *)
Definition py_iter (v : json) : Result (list json) :=
  match v with
  | JArr l => Ok l
  | JObj m => Ok (JStr <$> (map_to_list m).*1)
  | JStr s => Ok ((fun a => JStr (String a EmptyString)) <$> String.list_ascii_of_string s)
  | _ => Err TypeError
  end.

(** *** Dictionary keys

    The hashable values. [True == 1] and [False == 0] hash alike, so they
    name the same dict entry; the entry keeps the key object inserted
    first. *)
Inductive pykey : Type :=
| KNone
| KBool (b : bool)
| KInt (z : Z)
| KStr (s : string).

Definition py_hashable (v : json) : Result pykey :=
  match v with
  | JNull => Ok KNone
  | JBool b => Ok (KBool b)
  | JInt z => Ok (KInt z)
  | JStr s => Ok (KStr s)
  | JArr _ | JObj _ => Err TypeError
  end.

Definition json_of_key (k : pykey) : json :=
  match k with
  | KNone => JNull
  | KBool b => JBool b
  | KInt z => JInt z
  | KStr s => JStr s
  end.

Definition key_eqb (a b : pykey) : bool :=
  match a, b with
  | KNone, KNone => true
  | KStr s, KStr t => String.eqb s t
  | KInt x, KInt y => x =? y
  | KBool x, KBool y => Bool.eqb x y
  | KBool x, KInt y | KInt y, KBool x => (if x then 1 else 0) =? y
  | _, _ => false
  end.

(** An insertion-ordered [dict] with integer values, as [authors_count]. *)
Abbreviation pydict := (list (pykey * Z)).

Fixpoint dict_get (d : pydict) (k : pykey) (default : Z) : Z :=
  match d with
  | [] => default
  | (k', v) :: d' => if key_eqb k' k then v else dict_get d' k default
  end.

(** [d[k] = v]: overwrite in place, or append a new entry. *)
Fixpoint dict_set (d : pydict) (k : pykey) (v : Z) : pydict :=
  match d with
  | [] => [(k, v)]
  | (k', v') :: d' =>
      if key_eqb k' k then (k', v) :: d' else (k', v') :: dict_set d' k v
  end.

(** ** Records of [main.py] *)

(** [RepositoryAuthorCommitsNum] *)
Record RepositoryAuthorCommitsNum := {
  author : pykey;
  commits_num : Z
}.

(** [Repository]. The dataclass does not check its annotations: the fields
    hold whatever the decoded record held. *)
Record Repository := {
  name : json;
  owner : json;
  position : Z;
  stars : json;
  watchers : json;
  forks : json;
  language : json;
  authors_commits_num_today : list RepositoryAuthorCommitsNum
}.

(** ** The remote API

    A request is the endpoint and the query parameters. The [since]
    parameter of the commits call is a reading of the wall clock and is
    left to the oracle. *)
Inductive Endpoint : Type :=
| SearchRepositories
| RepoCommits (owner repo : json).

Definition GithubAPI := Endpoint -> list (string * json) -> Result json.

Module GithubReposScraper.

(** Line 113: one [RepositoryAuthorCommitsNum] per entry of
    [authors_count.items()], in insertion order. *)
Definition authors_commits_of (authors_count : pydict)
  : list RepositoryAuthorCommitsNum :=
  map (fun '(author, count) => {| author := author; commits_num := count |})
      authors_count.

Section Scraper.
Variable api : GithubAPI.

(** [_make_request]: the response body, or the [ClientError] re-raised. *)
Definition _make_request (endpoint : Endpoint) (params : list (string * json))
  : Result json :=
  api endpoint params.

(** [_get_top_repositories] *)
Definition _get_top_repositories (limit : Z) : Result json :=
  data ← _make_request SearchRepositories
           [("q", JStr "stars:>1"); ("sort", JStr "stars");
            ("order", JStr "desc"); ("per_page", JInt limit)];
  repositories ← py_get data "items" (JArr []);
  _ ← py_len repositories;
  Ok repositories.

(** [_get_repository_commits] *)
Definition _get_repository_commits (owner repo : json) : Result json :=
  commits ← _make_request (RepoCommits owner repo) [("per_page", JInt 100)];
  _ ← py_len commits;
  Ok commits.

(** The loop of [_process_repository] over [commits], lines 108-111. *)
Fixpoint count_authors (commits : list json) (authors_count : pydict)
  : Result pydict :=
  match commits with
  | [] => Ok authors_count
  | commit :: rest =>
      a ← py_get commit "author" JNull;
      if py_truthy a then
        login ← py_get a "login" (JStr "unknown");
        author ← py_hashable login;
        count_authors rest
          (dict_set authors_count author (dict_get authors_count author 0 + 1))
      else count_authors rest authors_count
  end.

(** Lines 107-113: the per-author counts of one commit list. *)
Definition aggregate_commits (commits : list json)
  : Result (list RepositoryAuthorCommitsNum) :=
  authors_count ← count_authors commits [];
  Ok (authors_commits_of authors_count).

(** [_process_repository] *)
Definition _process_repository (repo_data : json) (position : Z)
  : Result Repository :=
  name ← py_get repo_data "name" (JStr "UNKNOWN");
  owner_obj ← py_getitem repo_data "owner";
  owner ← py_getitem owner_obj "login";
  commits ← _get_repository_commits owner name;
  commit_list ← py_iter commits;
  authors_commits ← aggregate_commits commit_list;
  stars ← py_getitem repo_data "stargazers_count";
  watchers ← py_getitem repo_data "watchers_count";
  forks ← py_getitem repo_data "forks_count";
  language ← py_get repo_data "language" (JStr "Unknown");
  Ok {| name := name; owner := owner; position := position;
        stars := stars; watchers := watchers; forks := forks;
        language := language;
        authors_commits_num_today := authors_commits |}.
End Scraper.

(** The exceptions of the failed tasks, in task order. *)
Fixpoint failures {A} (rs : list (Result A)) : list PyExc :=
  match rs with
  | [] => []
  | Ok _ :: rs' => failures rs'
  | Err e :: rs' => e :: failures rs'
  end.

(** The results of the tasks that returned, in task order. *)
Fixpoint successes {A} (rs : list (Result A)) : list A :=
  match rs with
  | [] => []
  | Ok a :: rs' => a :: successes rs'
  | Err _ :: rs' => successes rs'
  end.

(** [asyncio.gather] without [return_exceptions]: the results in the order
    of the awaitables when all succeed; otherwise the exception raised
    first in time. Which failing task that is depends on the event loop,
    here on [sched], which picks among the failures listed in task order. *)
Definition gather {A} (sched : list PyExc -> nat) (rs : list (Result A))
  : Result (list A) :=
  match failures rs with
  | [] => Ok (successes rs)
  | e :: es => Err (nth (sched (e :: es)) (e :: es) e)
  end.

(** [get_repositories] *)
Definition get_repositories (api : GithubAPI) (sched : list PyExc -> nat)
    (limit : Z) : Result (list Repository) :=
  top_repos ← _get_top_repositories api limit;
  repos ← py_iter top_repos;
  gather sched
    (imap (fun idx repo => _process_repository api repo (Z.of_nat idx + 1)) repos).

End GithubReposScraper.

(** ** Sequences: [range] and slicing *)

(** [range(start, stop, step)]: [ValueError] for a zero step, otherwise the
    arithmetic progression from [start] that stays on this side of [stop]. *)
Definition py_range (start stop step : Z) : Result (list Z) :=
  if step =? 0 then Err ValueError
  else
    let n := if 0 <? step then (stop - start + step - 1) / step
             else (start - stop - step - 1) / (- step) in
    Ok (map (fun k => start + Z.of_nat k * step) (seq 0 (Z.to_nat n))).

(** A slice bound brought into [0 .. len]: negative bounds count from the
    end, and bounds outside the list are clamped. *)
Definition slice_bound (len i : Z) : Z :=
  if i <? 0 then Z.max 0 (i + len) else Z.min i len.

(** [values[i:j]] *)
Definition py_slice {A} (values : list A) (i j : Z) : list A :=
  let len := Z.of_nat (length values) in
  let lo := slice_bound len i in
  let hi := slice_bound len j in
  take (Z.to_nat (hi - lo)) (drop (Z.to_nat lo) values).

(** ** The ClickHouse client *)

(** A row is a Python tuple. *)
Abbreviation Row := (list json).

(** What the client has been asked to insert and what it has stored, both
    oldest first, and (as a ghost trace) the [save_*] methods entered. *)
Record ClickHouse := {
  invoked : list string;
  attempted : list (string * list Row);
  committed : list (string * list Row)
}.

(** When an insert fails, and with which exception. *)
Definition Fault := ClickHouse -> string -> list Row -> option PyExc.

Module ClickHouseManager.

Section Manager.
Variable fault : Fault.
Variable BATCH_SIZE : Z.

(** [self._ch_client.execute(query, *batch)]: one bulk insert. A failed
    insert stores nothing. *)
Definition execute (query : string) (batch : list Row) (ch : ClickHouse)
  : Result unit * ClickHouse :=
  let ch' := {| invoked := invoked ch;
                attempted := attempted ch ++ [(query, batch)];
                committed := committed ch |} in
  match fault ch query batch with
  | Some e => (Err e, ch')
  | None => (Ok tt, {| invoked := invoked ch';
                       attempted := attempted ch';
                       committed := committed ch' ++ [(query, batch)] |})
  end.

(** The body of the [for] loop of [_execute_query], over the values
    [range] yields. *)
Fixpoint insert_batches (query : string) (values : list Row) (batch_size : Z)
    (starts : list Z) (ch : ClickHouse) : Result unit * ClickHouse :=
  match starts with
  | [] => (Ok tt, ch)
  | i :: rest =>
      let batch := py_slice values i (i + batch_size) in
      match execute query batch ch with
      | (Ok _, ch') => insert_batches query values batch_size rest ch'
      | (Err e, ch') => (Err e, ch')
      end
  end.

(** [_execute_query]: every exception is logged and re-raised. *)
Definition _execute_query (query : string) (values : list Row)
    (batch_size : Z) (ch : ClickHouse) : Result unit * ClickHouse :=
  match py_range 0 (Z.of_nat (length values)) batch_size with
  | Err e => (Err e, ch)
  | Ok starts => insert_batches query values batch_size starts ch
  end.

Definition enter (method : string) (ch : ClickHouse) : ClickHouse :=
  {| invoked := invoked ch ++ [method];
     attempted := attempted ch;
     committed := committed ch |}.

Definition repositories_query : string :=
  "INSERT INTO test.repositories (name, owner, stars, watchers, forks, language, updated) VALUES".
Definition positions_query : string :=
  "INSERT INTO test.repositories_positions (date, repo, position) VALUES".
Definition commits_query : string :=
  "INSERT INTO test.repositories_authors_commits (date, repo, author, commits_num) VALUES".

(** [save_repositories] *)
Definition save_repositories (repositories : list Row) (ch : ClickHouse)
  : Result unit * ClickHouse :=
  let ch := enter "save_repositories" ch in
  match repositories with
  | [] => (Ok tt, ch)
  | _ => _execute_query repositories_query repositories BATCH_SIZE ch
  end.

(** [save_positions] *)
Definition save_positions (positions : list Row) (ch : ClickHouse)
  : Result unit * ClickHouse :=
  let ch := enter "save_positions" ch in
  match positions with
  | [] => (Ok tt, ch)
  | _ => _execute_query positions_query positions BATCH_SIZE ch
  end.

(** [save_commits] *)
Definition save_commits (commits : list Row) (ch : ClickHouse)
  : Result unit * ClickHouse :=
  let ch := enter "save_commits" ch in
  match commits with
  | [] => (Ok tt, ch)
  | _ => _execute_query commits_query commits BATCH_SIZE ch
  end.
End Manager.

End ClickHouseManager.

(** ** [main] *)

(** A reading of [datetime.now(timezone.utc)]. *)
Record datetime := {
  year : Z; month : Z; day : Z;
  hour : Z; minute : Z; second : Z;
  microsecond : Z
}.

Definition digit (d : Z) : string :=
  String (Ascii.ascii_of_nat (48 + Z.to_nat d)) EmptyString.

(** [%m], [%d], [%H], [%M], [%S]: two digits. *)
Definition pad2 (z : Z) : string := digit (z / 10) +:+ digit (z mod 10).

(** [%Y] for the four-digit years a clock reads. *)
Definition pad4 (z : Z) : string := pad2 (z / 100) +:+ pad2 (z mod 100).

(** [strftime('%Y-%m-%d %H:%M:%S')] *)
Definition strftime (t : datetime) : string :=
  pad4 (year t) +:+ "-" +:+ pad2 (month t) +:+ "-" +:+ pad2 (day t) +:+ " " +:+
  pad2 (hour t) +:+ ":" +:+ pad2 (minute t) +:+ ":" +:+ pad2 (second t).

(** The values read from [config.py] that the modelled paths use. *)
Record Config := {
  REPOSITORY_LIMIT : Z;
  BATCH_SIZE : Z
}.

(** Lines 153-155: the three row sets. *)
Definition repo_data (date_today : string) (repos_data : list Repository)
  : list Row :=
  map (fun r => [name r; owner r; stars r; watchers r; forks r; language r;
                 JStr date_today]) repos_data.

Definition positions_data (date_today : string) (repos_data : list Repository)
  : list Row :=
  map (fun r => [JStr date_today; name r; JInt (position r)]) repos_data.

Definition commits_data (date_today : string) (repos_data : list Repository)
  : list Row :=
  flat_map (fun r =>
      map (fun ac => [JStr date_today; name r; json_of_key (author ac);
                      JInt (commits_num ac)])
          (authors_commits_num_today r))
    repos_data.

(** Lines 157-161. The three coroutines write to three different tables;
    their interleaving is not modelled: they run one after the other, each
    to its own end, and [gather] reports as above. When no insert fails
    every schedule leaves each table with the same rows. When one fails,
    [main] leaves at that point while the other two loads are still under
    way: how many of their batches reach the client then depends on the
    schedule, and the log computed here is the one in which they all do. *)
Definition save_all (fault : Fault) (batch_size : Z) (sched : list PyExc -> nat)
    (repos positions commits : list Row) (ch : ClickHouse)
  : Result unit * ClickHouse :=
  let '(r1, ch1) := ClickHouseManager.save_repositories fault batch_size repos ch in
  let '(r2, ch2) := ClickHouseManager.save_positions fault batch_size positions ch1 in
  let '(r3, ch3) := ClickHouseManager.save_commits fault batch_size commits ch2 in
  (_ ← GithubReposScraper.gather sched [r1; r2; r3]; Ok tt, ch3).

(** [main]: [now] is the clock reading of line 151. Closing the two
    sessions in the [finally] block touches neither the rows nor the log. *)
Definition main (cfg : Config) (api : GithubAPI) (fault : Fault)
    (sched : list PyExc -> nat) (now : datetime) (ch : ClickHouse)
  : Result unit * ClickHouse :=
  match GithubReposScraper.get_repositories api sched (REPOSITORY_LIMIT cfg) with
  | Err e => (Err e, ch)
  | Ok repos_data =>
      let date_today := strftime now in
      save_all fault (BATCH_SIZE cfg) sched
        (repo_data date_today repos_data)
        (positions_data date_today repos_data)
        (commits_data date_today repos_data) ch
  end.

(** ** Request URLs

    The text of the URLs, for string arguments; the oracle above is keyed
    on the structured request. *)

(** The base URL, line 21. *)
Definition GITHUB_API_BASE_URL : string := "https://api.github.com".

(** Line 59, the URL [_make_request] asks for. *)
Definition request_url (endpoint : string) : string :=
  GITHUB_API_BASE_URL +:+ "/" +:+ endpoint.

(** Line 91, the endpoint of the commits call, for an owner and a
    repository name that are strings. *)
Definition commits_endpoint (owner repo : string) : string :=
  "repos/" +:+ owner +:+ "/" +:+ repo +:+ "/commits".

(** * Vocabulary of the properties *)

Import GithubReposScraper.
Import ClickHouseManager.

(** Keys up to Python's [==]: a [bool] key is the [int] it equals. *)
Definition key_norm (k : pykey) : pykey :=
  match k with
  | KBool b => KInt (if b then 1 else 0)
  | _ => k
  end.

#[global] Instance pykey_eq_dec : EqDecision pykey.
Proof. solve_decision. Defined.

(** [sum(d.values())] *)
Fixpoint dict_sum (d : pydict) : Z :=
  match d with
  | [] => 0
  | (_, v) :: d' => v + dict_sum d'
  end.

(** One pass of the loop body on an attributed commit. *)
Definition bump (d : pydict) (k : pykey) : pydict :=
  dict_set d k (dict_get d k 0 + 1).

(** What one pass of the loop does with a commit record: it raises, skips
    the record ([None]), or counts it under a key. *)
Definition commit_author (commit : json) : Result (option pykey) :=
  a ← py_get commit "author" JNull;
  if py_truthy a then
    login ← py_get a "login" (JStr "unknown");
    author ← py_hashable login;
    Ok (Some author)
  else Ok None.

(** The record is counted. *)
Definition attributable (commit : json) : bool :=
  match commit_author commit with Ok (Some _) => true | _ => false end.

(** The record is counted under a key equal to [k]. *)
Definition authored_by (k : pykey) (commit : json) : bool :=
  match commit_author commit with Ok (Some k') => key_eqb k' k | _ => false end.

(** The keys of the counted records, in commit order. *)
Definition attributions (commits : list json) : list pykey :=
  omap (fun c => match commit_author c with Ok (Some k) => Some k | _ => None end)
       commits.

(** The sum of the emitted [commits_num]. *)
Fixpoint sum_commits (counts : list RepositoryAuthorCommitsNum) : Z :=
  match counts with
  | [] => 0
  | ac :: counts' => commits_num ac + sum_commits counts'
  end.

(** The batch [_execute_query] reads at offset [i]. *)
Definition batch_at {A} (values : list A) (batch_size i : Z) : list A :=
  py_slice values i (i + batch_size).

(** The batches [_execute_query] cuts [values] into. *)
Definition chunks {A} (values : list A) (batch_size : Z) : list (list A) :=
  match py_range 0 (Z.of_nat (length values)) batch_size with
  | Ok starts => map (batch_at values batch_size) starts
  | Err _ => []
  end.

(** The client after the inserts [tried] of [query] were attempted, of
    which [stored] went through. *)
Definition after (query : string) (tried stored : list (list Row))
    (ch : ClickHouse) : ClickHouse :=
  {| invoked := invoked ch;
     attempted := attempted ch ++ map (pair query) tried;
     committed := committed ch ++ map (pair query) stored |}.

(** [ceil(n / b)] for a positive [b]. *)
Definition ceil_div (n b : Z) : Z := (n + b - 1) / b.

(** The three [save_*] methods, to state a property of each at once. *)
Inductive LoadOp : Type := SaveRepositories | SavePositions | SaveCommits.

Definition load_name (op : LoadOp) : string :=
  match op with
  | SaveRepositories => "save_repositories"
  | SavePositions => "save_positions"
  | SaveCommits => "save_commits"
  end.

Definition load_query (op : LoadOp) : string :=
  match op with
  | SaveRepositories => repositories_query
  | SavePositions => positions_query
  | SaveCommits => commits_query
  end.

Definition load (fault : Fault) (batch_size : Z) (op : LoadOp)
  : list Row -> ClickHouse -> Result unit * ClickHouse :=
  match op with
  | SaveRepositories => save_repositories fault batch_size
  | SavePositions => save_positions fault batch_size
  | SaveCommits => save_commits fault batch_size
  end.

(** The client inside [op], once the first [j] batches of [values] are
    stored. *)
Definition stored_up_to (op : LoadOp) (values : list Row) (b : Z)
    (ch : ClickHouse) (j : nat) : ClickHouse :=
  after (load_query op) (take j (chunks values b)) (take j (chunks values b))
        (enter (load_name op) ch).

(** The name [_process_repository] works with. *)
Definition repo_name (m : gmap string json) : json :=
  default (JStr "UNKNOWN") (m !! "name").

(** Lines 105-113 for one record: fetch the commits, walk them, count. *)
Definition commits_stage (api : GithubAPI) (owner name : json)
  : Result (list RepositoryAuthorCommitsNum) :=
  commits ← _get_repository_commits api owner name;
  commit_list ← py_iter commits;
  aggregate_commits commit_list.

(** [repo_data["owner"]["login"]] is there to read. *)
Definition has_owner_login (m : gmap string json) : bool :=
  match m !! "owner" with
  | Some (JObj owner_obj) => bool_decide (is_Some (owner_obj !! "login"))
  | _ => false
  end.

(** The first of the three counts the record does not have, in the order
    [_process_repository] reads them. *)
Definition first_missing_count (m : gmap string json) : option string :=
  match m !! "stargazers_count", m !! "watchers_count", m !! "forks_count" with
  | None, _, _ => Some "stargazers_count"
  | Some _, None, _ => Some "watchers_count"
  | Some _, Some _, None => Some "forks_count"
  | Some _, Some _, Some _ => None
  end.

(** The record misses the owner login or one of the three counts. *)
Definition lacks_required_field (m : gmap string json) : bool :=
  negb (has_owner_login m) || bool_decide (is_Some (first_missing_count m)).

(** The column that holds the timestamp: [updated] is the last of the
    seven columns of [test.repositories], [date] the first of the other
    two tables. *)
Definition timestamp_column (query : string) : nat :=
  if String.eqb query repositories_query then 6%nat else 0%nat.

(** Two clock readings that differ at most in their microseconds. *)
Definition same_second (t t' : datetime) : Prop :=
  year t = year t' /\ month t = month t' /\ day t = day t' /\
  hour t = hour t' /\ minute t = minute t' /\ second t = second t'.

(** A commit record the loop can handle: an object whose [author] is
    missing or falsy, or an object whose [login] is missing or hashable. *)
Definition countable_commit (commit : json) : bool :=
  match commit with
  | JObj m =>
      match m !! "author" with
      | None => true
      | Some a =>
          if py_truthy a then
            match a with
            | JObj am =>
                match am !! "login" with
                | None => true
                | Some login => is_ok (py_hashable login)
                end
            | _ => false
            end
          else true
      end
  | _ => false
  end.

(** The distinct keys of a list, each at its first occurrence. *)
Fixpoint first_seen (ks : list pykey) : list pykey :=
  match ks with
  | [] => []
  | k :: ks' => k :: List.filter (fun k' => negb (key_eqb k k')) (first_seen ks')
  end.

(** No key of [seen] equals [k]. *)
Definition fresh_for (seen : list pykey) (k : pykey) : bool :=
  negb (existsb (fun k0 => key_eqb k0 k) seen).

(** The rows stored for one table, batch after batch. *)
Definition rows_stored (query : string) (log : list (string * list Row))
  : list Row :=
  concat (map snd (List.filter (fun entry => String.eqb entry.1 query) log)).

(** The string has no ["/"]. *)
Fixpoint no_slash (s : string) : bool :=
  match s with
  | EmptyString => true
  | String c s' => negb (Ascii.eqb c (Ascii.ascii_of_nat 47)) && no_slash s'
  end.

(** * Sample data *)

(** A dict literal. *)
Definition py_dict (items : list (string * json)) : json :=
  JObj (list_to_map items).

(** A commit record whose author has the given login. *)
Definition commit_by (login : string) : json :=
  py_dict [("author", py_dict [("login", JStr login)])].

(** The commits [a, a, (author: null), b]. *)
Definition sample_commits : list json :=
  [commit_by "a"; commit_by "a"; py_dict [("author", JNull)]; commit_by "b"].

Definition empty_clickhouse : ClickHouse :=
  {| invoked := []; attempted := []; committed := [] |}.

Definition no_fault : Fault := fun _ _ _ => None.

(** A client that refuses every insert once two are stored. *)
Definition fault_after_two : Fault :=
  fun ch _ _ => if (2 <=? length (committed ch))%nat then Some (ChError "down") else None.

(** A well-formed repository record with a null language. *)
Definition sample_record (repo_name : string) (stars : Z) : gmap string json :=
  list_to_map [("name", JStr repo_name);
               ("owner", py_dict [("login", JStr "octo")]);
               ("stargazers_count", JInt stars);
               ("watchers_count", JInt stars);
               ("forks_count", JInt 7);
               ("language", JNull)].

Definition sample_repo (repo_name : string) (stars : Z) : json :=
  JObj (sample_record repo_name stars).

(** An API that lists two repositories, the less starred first, and
    serves one commit for each. *)
Definition sample_api : GithubAPI := fun endpoint _ =>
  match endpoint with
  | SearchRepositories =>
      Ok (py_dict [("items", JArr [sample_repo "low" 10; sample_repo "high" 90])])
  | RepoCommits _ _ => Ok (JArr [commit_by "a"])
  end.

(** A repository record without [stargazers_count]. *)
Definition starless_record : gmap string json :=
  list_to_map [("name", JStr "r");
               ("owner", py_dict [("login", JStr "o")]);
               ("watchers_count", JInt 1);
               ("forks_count", JInt 1)].

Definition starless_search : json :=
  py_dict [("items", JArr [JObj starless_record])].

(** An API that lists that record and serves its commits. *)
Definition starless_api : GithubAPI := fun endpoint _ =>
  match endpoint with
  | SearchRepositories => Ok starless_search
  | RepoCommits _ _ => Ok (JArr [commit_by "a"])
  end.

(** An API that lists that record and answers 409 for its commits, as
    for an empty repository. *)
Definition starless_api_409 : GithubAPI := fun endpoint _ =>
  match endpoint with
  | SearchRepositories => Ok starless_search
  | RepoCommits _ _ => Err (ClientError 409)
  end.

(** A record with every field but [name]. *)
Definition nameless_record : gmap string json :=
  list_to_map [("owner", py_dict [("login", JStr "o")]);
               ("stargazers_count", JInt 3);
               ("watchers_count", JInt 3);
               ("forks_count", JInt 1)].

(** An API that serves the commits of [o/r] and answers 404 for every
    other repository. *)
Definition only_r_api : GithubAPI := fun endpoint _ =>
  match endpoint with
  | SearchRepositories => Ok (py_dict [("items", JArr [JObj nameless_record])])
  | RepoCommits _ (JStr "r") => Ok (JArr [commit_by "a"])
  | RepoCommits _ _ => Err (ClientError 404)
  end.

Definition sample_now : datetime :=
  {| year := 2025; month := 3; day := 7; hour := 1; minute := 2; second := 59;
     microsecond := 123456 |}.

(** What [get_repositories] builds from [sample_api]. *)
Definition sample_repos : list Repository :=
  [ {| name := JStr "low"; owner := JStr "octo"; position := 1;
       stars := JInt 10; watchers := JInt 10; forks := JInt 7;
       language := JNull;
       authors_commits_num_today := [{| author := KStr "a"; commits_num := 1 |}] |};
    {| name := JStr "high"; owner := JStr "octo"; position := 2;
       stars := JInt 90; watchers := JInt 90; forks := JInt 7;
       language := JNull;
       authors_commits_num_today := [{| author := KStr "a"; commits_num := 1 |}] |} ].

(** * Properties *)

(** ** Keys and the ordered dict *)

Lemma key_eqb_norm a b : key_eqb a b = true <-> key_norm a = key_norm b.
Proof.
  destruct a as [|[]|x|s], b as [|[]|y|t];
    cbn [key_eqb key_norm Bool.eqb];
    rewrite ?Z.eqb_eq, ?String.eqb_eq;
    split; intros H; congruence.
Qed.

Lemma key_eqb_refl a : key_eqb a a = true.
Proof. by apply key_eqb_norm. Qed.

Lemma key_eqb_false a b : key_eqb a b = false <-> key_norm a <> key_norm b.
Proof.
  rewrite <- key_eqb_norm. destruct (key_eqb a b); split; congruence.
Qed.

Lemma dict_get_set d k v k' dflt :
  dict_get (dict_set d k v) k' dflt =
  if key_eqb k k' then v else dict_get d k' dflt.
Proof.
  induction d as [|[k0 v0] d IH]; simpl.
  - reflexivity.
  - destruct (key_eqb k0 k) eqn:E0; simpl.
    + destruct (key_eqb k0 k') eqn:E1.
      * apply key_eqb_norm in E0, E1.
        assert (key_eqb k k' = true) as -> by (apply key_eqb_norm; congruence).
        reflexivity.
      * apply key_eqb_norm in E0. apply key_eqb_false in E1.
        assert (key_eqb k k' = false) as -> by (apply key_eqb_false; congruence).
        reflexivity.
    + destruct (key_eqb k0 k') eqn:E1; [|exact IH].
      apply key_eqb_false in E0. apply key_eqb_norm in E1.
      assert (key_eqb k k' = false) as -> by (apply key_eqb_false; congruence).
      reflexivity.
Qed.

Lemma dict_set_keys_hit d k v :
  key_norm k ∈ key_norm <$> d.*1 -> (dict_set d k v).*1 = d.*1.
Proof.
  induction d as [|[k0 v0] d IH]; simpl; intros Hin.
  - by apply elem_of_nil in Hin.
  - destruct (key_eqb k0 k) eqn:E0; simpl; [reflexivity|].
    apply elem_of_cons in Hin as [Heq|Hin].
    + apply key_eqb_false in E0. congruence.
    + f_equal. by apply IH.
Qed.

Lemma dict_set_keys_miss d k v :
  key_norm k ∉ key_norm <$> d.*1 -> (dict_set d k v).*1 = d.*1 ++ [k].
Proof.
  induction d as [|[k0 v0] d IH]; simpl; intros Hin.
  - reflexivity.
  - apply not_elem_of_cons in Hin as [Hne Hin].
    assert (key_eqb k0 k = false) as -> by (apply key_eqb_false; congruence).
    simpl. f_equal. by apply IH.
Qed.

Lemma dict_get_miss d k dflt :
  key_norm k ∉ key_norm <$> d.*1 -> dict_get d k dflt = dflt.
Proof.
  induction d as [|[k0 v0] d IH]; simpl; intros Hin; [reflexivity|].
  apply not_elem_of_cons in Hin as [Hne Hin].
  assert (key_eqb k0 k = false) as -> by (apply key_eqb_false; congruence).
  by apply IH.
Qed.

Lemma dict_sum_set d k v :
  dict_sum (dict_set d k v) = dict_sum d + v - dict_get d k 0.
Proof.
  induction d as [|[k0 v0] d IH]; simpl.
  - lia.
  - destruct (key_eqb k0 k); simpl; [lia|].
    rewrite IH. lia.
Qed.

Lemma dict_sum_bump d k : dict_sum (bump d k) = dict_sum d + 1.
Proof. unfold bump. rewrite dict_sum_set. lia. Qed.

Lemma NoDup_bump d k :
  NoDup (key_norm <$> d.*1) -> NoDup (key_norm <$> (bump d k).*1).
Proof.
  intros Hnd. unfold bump.
  destruct (decide (key_norm k ∈ key_norm <$> d.*1)) as [Hin|Hout].
  - by rewrite dict_set_keys_hit.
  - rewrite dict_set_keys_miss by done.
    rewrite fmap_app. apply NoDup_app. split; [done|]. split.
    + intros x Hx Hk. apply list_elem_of_singleton in Hk. by subst.
    + apply NoDup_singleton.
Qed.

Lemma dict_get_hit (d : pydict) k v :
  NoDup (key_norm <$> d.*1) -> (k, v) ∈ d -> dict_get d k 0 = v.
Proof.
  induction d as [|[k0 v0] d IH]; simpl; intros Hnd Hin.
  - by apply elem_of_nil in Hin.
  - apply NoDup_cons in Hnd as [Hout Hnd].
    apply elem_of_cons in Hin as [Heq|Hin].
    + injection Heq as -> ->. by rewrite key_eqb_refl.
    + assert (key_eqb k0 k = false) as ->; [|by apply IH].
      apply key_eqb_false. intros Heq. apply Hout. rewrite Heq.
      apply list_elem_of_fmap. exists k. split; [done|].
      apply list_elem_of_fmap. by exists (k, v).
Qed.

(** ** The commit aggregation *)

Lemma count_authors_cons commit rest d :
  count_authors (commit :: rest) d =
  match commit_author commit with
  | Err e => Err e
  | Ok None => count_authors rest d
  | Ok (Some k) => count_authors rest (bump d k)
  end.
Proof.
  unfold commit_author. cbn [count_authors].
  destruct (py_get commit "author" JNull) as [a|e]; cbn; [|reflexivity].
  destruct (py_truthy a); [|reflexivity].
  destruct (py_get a "login" (JStr "unknown")) as [login|e]; cbn; [|reflexivity].
  destruct (py_hashable login) as [k|e]; cbn; reflexivity.
Qed.

Lemma count_authors_fold commits d :
  Forall (fun c => is_ok (commit_author c) = true) commits ->
  count_authors commits d = Ok (foldl bump d (attributions commits)).
Proof.
  intros Hwf. revert d.
  induction Hwf as [|c commits Hc _ IH]; intros d; [reflexivity|].
  rewrite count_authors_cons. unfold attributions. cbn [omap list_omap].
  destruct (commit_author c) as [[k|]|e]; [apply IH|apply IH|discriminate].
Qed.

Lemma count_authors_ok commits d d' :
  count_authors commits d = Ok d' ->
  Forall (fun c => is_ok (commit_author c) = true) commits.
Proof.
  revert d. induction commits as [|c commits IH]; intros d H; [constructor|].
  rewrite count_authors_cons in H.
  destruct (commit_author c) as [[k|]|e] eqn:E; [| |discriminate];
    (constructor; [by rewrite E|eapply IH, H]).
Qed.

Lemma length_attributions commits :
  length (attributions commits) = length (List.filter attributable commits).
Proof.
  induction commits as [|c commits IH]; [reflexivity|].
  unfold attributions, attributable in *. cbn [omap list_omap List.filter].
  destruct (commit_author c) as [[k|]|e]; simpl; congruence.
Qed.

Lemma count_attributions k commits :
  length (List.filter (fun k' => key_eqb k' k) (attributions commits)) =
  length (List.filter (authored_by k) commits).
Proof.
  induction commits as [|c commits IH]; [reflexivity|].
  unfold attributions, authored_by in *. cbn [omap list_omap List.filter].
  destruct (commit_author c) as [[k'|]|e]; simpl; [|done|done].
  destruct (key_eqb k' k); simpl; congruence.
Qed.

Lemma dict_sum_foldl ks d :
  dict_sum (foldl bump d ks) = dict_sum d + Z.of_nat (length ks).
Proof.
  revert d. induction ks as [|k ks IH]; intros d; simpl; [lia|].
  rewrite IH, dict_sum_bump. lia.
Qed.

Lemma NoDup_foldl_bump ks d :
  NoDup (key_norm <$> d.*1) -> NoDup (key_norm <$> (foldl bump d ks).*1).
Proof.
  revert d. induction ks as [|k ks IH]; intros d Hnd; simpl; [done|].
  by apply IH, NoDup_bump.
Qed.

Lemma dict_get_foldl ks d k :
  dict_get (foldl bump d ks) k 0 =
  dict_get d k 0 + Z.of_nat (length (List.filter (fun k' => key_eqb k' k) ks)).
Proof.
  revert d. induction ks as [|k0 ks IH]; intros d; simpl; [lia|].
  rewrite IH. unfold bump at 1. rewrite dict_get_set.
  destruct (key_eqb k0 k) eqn:E; simpl; [|lia].
  apply key_eqb_norm in E.
  assert (dict_get d k0 0 = dict_get d k 0) as ->; [|lia].
  clear -E. induction d as [|[k1 v1] d IH]; simpl; [done|].
  destruct (key_eqb k1 k0) eqn:E0.
  - apply key_eqb_norm in E0.
    assert (key_eqb k1 k = true) as -> by (apply key_eqb_norm; congruence). done.
  - apply key_eqb_false in E0.
    assert (key_eqb k1 k = false) as -> by (apply key_eqb_false; congruence). done.
Qed.

Lemma bump_keys_sub d k k' :
  k' ∈ (bump d k).*1 -> k' ∈ d.*1 \/ k' = k.
Proof.
  unfold bump. destruct (decide (key_norm k ∈ key_norm <$> d.*1)) as [Hin|Hout].
  - rewrite dict_set_keys_hit by done. auto.
  - rewrite dict_set_keys_miss by done. rewrite elem_of_app, list_elem_of_singleton. auto.
Qed.

Lemma foldl_bump_keys_sub ks d k' :
  k' ∈ (foldl bump d ks).*1 -> k' ∈ d.*1 \/ k' ∈ ks.
Proof.
  revert d. induction ks as [|k ks IH]; intros d; simpl; [auto|].
  intros H. apply IH in H as [H|H].
  - apply bump_keys_sub in H as [H| ->]; [auto|]. right. apply elem_of_cons; auto.
  - right. apply elem_of_cons; auto.
Qed.

Lemma bump_keys_mono d k k' :
  key_norm k' ∈ key_norm <$> d.*1 -> key_norm k' ∈ key_norm <$> (bump d k).*1.
Proof.
  unfold bump. destruct (decide (key_norm k ∈ key_norm <$> d.*1)) as [Hin|Hout].
  - by rewrite dict_set_keys_hit.
  - rewrite dict_set_keys_miss by done. rewrite fmap_app, elem_of_app. auto.
Qed.

Lemma bump_keys_new d k : key_norm k ∈ key_norm <$> (bump d k).*1.
Proof.
  unfold bump. destruct (decide (key_norm k ∈ key_norm <$> d.*1)) as [Hin|Hout].
  - by rewrite dict_set_keys_hit.
  - rewrite dict_set_keys_miss by done. rewrite fmap_app, elem_of_app.
    right. apply list_elem_of_singleton. done.
Qed.

Lemma foldl_bump_keys_mono ks d k' :
  key_norm k' ∈ key_norm <$> d.*1 -> key_norm k' ∈ key_norm <$> (foldl bump d ks).*1.
Proof.
  revert d. induction ks as [|k ks IH]; intros d H; simpl; [done|].
  by apply IH, bump_keys_mono.
Qed.

Lemma foldl_bump_keys_new ks d k :
  k ∈ ks -> key_norm k ∈ key_norm <$> (foldl bump d ks).*1.
Proof.
  revert d. induction ks as [|k0 ks IH]; intros d H; simpl.
  - by apply elem_of_nil in H.
  - apply elem_of_cons in H as [->|H]; [|by apply IH].
    apply foldl_bump_keys_mono, bump_keys_new.
Qed.

Lemma sum_commits_of d : sum_commits (authors_commits_of d) = dict_sum d.
Proof.
  induction d as [|[k v] d IH]; simpl; [done|]. by rewrite IH.
Qed.

Lemma elem_of_authors_commits_of ac d :
  ac ∈ authors_commits_of d <-> (author ac, commits_num ac) ∈ d.
Proof.
  unfold authors_commits_of. rewrite list_elem_of_In, in_map_iff. split.
  - intros [[k v] [<- Hin]]. simpl. by apply list_elem_of_In.
  - intros Hin. exists (author ac, commits_num ac). split.
    + by destruct ac.
    + by apply list_elem_of_In.
Qed.

Lemma authors_of_authors_commits d : author <$> authors_commits_of d = d.*1.
Proof.
  induction d as [|[k v] d IH]; simpl; [done|]. f_equal. exact IH.
Qed.

(** C1 (as the code has it): a record whose author is absent, null or
    otherwise falsy is skipped; the other records are grouped by the login
    of their author, with ["unknown"] for an author object without a login.
    Every bucket counts the records of its author and is positive, no two
    buckets share an author, and the counts add up to the number of records
    that have an author. An empty list gives an empty result. *)
Theorem aggregate_commits_counts_attributed (commits : list json) :
  Forall (fun c => is_ok (commit_author c) = true) commits ->
  exists counts,
    aggregate_commits commits = Ok counts /\
    sum_commits counts = Z.of_nat (length (List.filter attributable commits)) /\
    (forall ac, ac ∈ counts ->
       0 < commits_num ac /\
       commits_num ac =
         Z.of_nat (length (List.filter (authored_by (author ac)) commits))) /\
    (forall c k, c ∈ commits -> commit_author c = Ok (Some k) ->
       exists ac, ac ∈ counts /\ key_eqb (author ac) k = true) /\
    (forall i j ac1 ac2, counts !! i = Some ac1 -> counts !! j = Some ac2 ->
       key_eqb (author ac1) (author ac2) = true -> i = j) /\
    (forall m, JObj m ∈ commits ->
       py_truthy (default JNull (m !! "author")) = false ->
       attributable (JObj m) = false) /\
    (forall m a, JObj m ∈ commits ->
       m !! "author" = Some (JObj a) -> a ≠ ∅ -> a !! "login" = None ->
       authored_by (KStr "unknown") (JObj m) = true) /\
    (commits = [] -> counts = []).
Proof.
  intros Hwf.
  set (ks := attributions commits).
  set (d := foldl bump [] ks).
  assert (Hnd : NoDup (key_norm <$> d.*1)).
  { apply NoDup_foldl_bump. simpl. apply NoDup_nil_2. }
  assert (Hget : forall k v, (k, v) ∈ d ->
            v = Z.of_nat (length (List.filter (authored_by k) commits))).
  { intros k v Hin. rewrite <- (dict_get_hit d k v Hnd Hin).
    unfold d. rewrite dict_get_foldl. simpl.
    unfold ks. by rewrite count_attributions. }
  exists (authors_commits_of d). split; [|split; [|split; [|split; [|split; [|split; [|split]]]]]].
  - unfold aggregate_commits. rewrite (count_authors_fold _ _ Hwf). reflexivity.
  - rewrite sum_commits_of. unfold d. rewrite dict_sum_foldl. simpl.
    unfold ks. by rewrite length_attributions.
  - intros ac Hac. apply elem_of_authors_commits_of in Hac.
    pose proof (Hget _ _ Hac) as Hv. split; [|exact Hv].
    assert (Hk : author ac ∈ d.*1).
    { apply list_elem_of_fmap. by exists (author ac, commits_num ac). }
    apply foldl_bump_keys_sub in Hk as [Hk|Hk]; [by apply elem_of_nil in Hk|].
    rewrite <- (dict_get_hit d _ _ Hnd Hac). unfold d.
    rewrite dict_get_foldl. simpl.
    assert (author ac ∈ List.filter (fun k' => key_eqb k' (author ac)) ks) as Hne.
    { apply list_elem_of_In, filter_In. split; [by apply list_elem_of_In|].
      apply key_eqb_refl. }
    destruct (List.filter _ ks); [by apply elem_of_nil in Hne|]. simpl. lia.
  - intros c k Hc Hk.
    assert (Hin : k ∈ ks).
    { unfold ks, attributions. apply list_elem_of_omap. exists c. by rewrite Hk. }
    pose proof (foldl_bump_keys_new ks [] k Hin) as Hnew. fold d in Hnew.
    apply list_elem_of_fmap in Hnew as [k' [Heq Hk']].
    apply list_elem_of_fmap in Hk' as [[k'' v] [-> Hkv]]. simpl in Heq.
    exists {| author := k''; commits_num := v |}. split.
    + by apply elem_of_authors_commits_of.
    + simpl. apply key_eqb_norm. congruence.
  - intros i j ac1 ac2 Hi Hj Heq.
    apply key_eqb_norm in Heq.
    eapply (NoDup_lookup _ i j (key_norm (author ac1)) Hnd).
    + rewrite <- authors_of_authors_commits, !list_lookup_fmap, Hi. done.
    + rewrite <- authors_of_authors_commits, !list_lookup_fmap, Hj. simpl. by rewrite Heq.
  - intros m _ Hm. unfold attributable, commit_author. cbn.
    destruct (m !! "author") as [a|]; simpl in Hm; [by rewrite Hm|reflexivity].
  - intros m a _ Hm Ha Hl. unfold authored_by, commit_author. cbn.
    rewrite Hm. cbn.
    destruct (map_to_list a) eqn:E; [by apply map_to_list_empty_iff in E|].
    cbn. rewrite Hl. reflexivity.
  - intros ->. reflexivity.
Qed.

Lemma aggregate_commits_counts_attributed_witness :
  exists counts,
    aggregate_commits sample_commits = Ok counts /\
    sum_commits counts = 3.
Proof.
  destruct (aggregate_commits_counts_attributed sample_commits)
    as [counts [Hagg [Hsum _]]].
  - repeat constructor.
  - exists counts. split; [exact Hagg|]. rewrite Hsum. reflexivity.
Defined.

(** The sample of the claim: the record without an author is dropped, so
    three of the four records are counted and no ["unknown"] bucket
    appears. *)
Lemma aggregate_commits_drops_null_author :
  aggregate_commits sample_commits =
    Ok [ {| author := KStr "a"; commits_num := 2 |};
         {| author := KStr "b"; commits_num := 1 |} ] /\
  sum_commits [ {| author := KStr "a"; commits_num := 2 |};
                {| author := KStr "b"; commits_num := 1 |} ]
    <> Z.of_nat (length sample_commits).
Proof. split; [vm_compute; reflexivity | vm_compute; discriminate]. Qed.

(** ** Batched inserts *)

Lemma ceil_div_spec n b : 0 < b -> b * (ceil_div n b - 1) < n <= b * ceil_div n b.
Proof.
  intros Hb. unfold ceil_div.
  pose proof (Z.mul_div_le (n + b - 1) b Hb).
  pose proof (Z.mul_succ_div_gt (n + b - 1) b Hb). lia.
Qed.

Lemma after_nil query ch : after query [] [] ch = ch.
Proof. destruct ch. unfold after. simpl. by rewrite !app_nil_r. Qed.

Lemma after_after query t1 s1 t2 s2 ch :
  after query t2 s2 (after query t1 s1 ch) = after query (t1 ++ t2) (s1 ++ s2) ch.
Proof. unfold after. simpl. by rewrite !map_app, !app_assoc. Qed.

Lemma execute_ok fault query batch ch :
  fault ch query batch = None ->
  execute fault query batch ch = (Ok tt, after query [batch] [batch] ch).
Proof. intros H. unfold execute. by rewrite H. Qed.

Lemma execute_err fault query batch ch e :
  fault ch query batch = Some e ->
  execute fault query batch ch = (Err e, after query [batch] [] ch).
Proof.
  intros H. unfold execute. rewrite H. unfold after. simpl.
  by rewrite app_nil_r.
Qed.

Section InsertBatches.
Variable fault : Fault.
Variable query : string.
Variable values : list Row.
Variable batch_size : Z.

Local Abbreviation cut := (batch_at values batch_size).

Lemma insert_batches_ok starts ch :
  (forall j i, starts !! j = Some i ->
     fault (after query (take j (map cut starts)) (take j (map cut starts)) ch)
           query (cut i) = None) ->
  insert_batches fault query values batch_size starts ch =
    (Ok tt, after query (map cut starts) (map cut starts) ch).
Proof.
  revert ch. induction starts as [|i starts IH]; intros ch Hok.
  - simpl. by rewrite after_nil.
  - cbn [insert_batches]. fold (batch_at values batch_size i).
    rewrite execute_ok.
    2:{ specialize (Hok 0%nat i eq_refl). simpl in Hok. by rewrite after_nil in Hok. }
    rewrite IH.
    + by rewrite after_after.
    + intros j i' Hj. rewrite after_after.
      apply (Hok (S j) i' Hj).
Qed.

Lemma insert_batches_err starts ch k i e :
  starts !! k = Some i ->
  (forall j i', (j < k)%nat -> starts !! j = Some i' ->
     fault (after query (take j (map cut starts)) (take j (map cut starts)) ch)
           query (cut i') = None) ->
  fault (after query (take k (map cut starts)) (take k (map cut starts)) ch)
        query (cut i) = Some e ->
  insert_batches fault query values batch_size starts ch =
    (Err e, after query (take (S k) (map cut starts)) (take k (map cut starts)) ch).
Proof.
  revert ch k. induction starts as [|i0 starts IH]; intros ch k Hk Hok Hbad.
  - discriminate.
  - cbn [insert_batches]. fold (batch_at values batch_size i0). destruct k as [|k].
    + injection Hk as ->. simpl in Hbad. rewrite after_nil in Hbad.
      by rewrite (execute_err _ _ _ _ _ Hbad).
    + rewrite execute_ok.
      2:{ specialize (Hok 0%nat i0 ltac:(lia) eq_refl). simpl in Hok.
          by rewrite after_nil in Hok. }
      rewrite (IH _ k).
      * by rewrite after_after.
      * exact Hk.
      * intros j i' Hj Hi'. rewrite after_after.
        apply (Hok (S j) i' ltac:(lia) Hi').
      * rewrite after_after. exact Hbad.
Qed.
End InsertBatches.

(** *** The shape of the batches *)

Lemma chunks_positive {A} (values : list A) (b : Z) :
  0 < b ->
  chunks values b =
    map (fun k => take (Z.to_nat b) (drop (k * Z.to_nat b) values))
        (seq 0 (Z.to_nat (ceil_div (Z.of_nat (length values)) b))).
Proof.
  intros Hb. unfold chunks, py_range.
  assert ((b =? 0) = false) as -> by lia.
  assert ((0 <? b) = true) as -> by lia.
  unfold batch_at. rewrite map_map. rewrite Z.sub_0_r. fold (ceil_div (Z.of_nat (length values)) b).
  apply map_ext_in. intros k Hk. apply in_seq in Hk.
  pose proof (ceil_div_spec (Z.of_nat (length values)) b Hb) as Hc.
  set (c := ceil_div (Z.of_nat (length values)) b) in *.
  set (bn := Z.to_nat b). assert (Hbn : b = Z.of_nat bn) by lia.
  clearbody bn c. subst b.
  assert (Hkn : Z.of_nat k * Z.of_nat bn < Z.of_nat (length values)).
  { assert (Z.of_nat k * Z.of_nat bn <= (c - 1) * Z.of_nat bn)
      by (apply Z.mul_le_mono_nonneg_r; lia). lia. }
  unfold py_slice, slice_bound.
  assert ((0 + Z.of_nat k * Z.of_nat bn <? 0) = false) as -> by lia.
  assert ((0 + Z.of_nat k * Z.of_nat bn + Z.of_nat bn <? 0) = false) as -> by lia.
  rewrite Z.min_l with (n := 0 + Z.of_nat k * Z.of_nat bn) by lia.
  assert (Z.to_nat (0 + Z.of_nat k * Z.of_nat bn) = (k * bn)%nat) as -> by lia.
  destruct (Z.min_spec (0 + Z.of_nat k * Z.of_nat bn + Z.of_nat bn)
              (Z.of_nat (length values))) as [[Hm ->]|[Hm ->]].
  - f_equal. lia.
  - rewrite !take_ge; [done| |]; rewrite length_drop; lia.
Qed.

Lemma concat_chunks_take {A} (values : list A) (b cnt : nat) :
  concat (map (fun k => take b (drop (k * b) values)) (seq 0 cnt)) =
  take (cnt * b) values.
Proof.
  induction cnt as [|cnt IH]; [done|].
  rewrite seq_S, map_app, concat_app, IH. simpl. rewrite app_nil_r.
  rewrite take_take_drop. f_equal. lia.
Qed.

Lemma concat_chunks {A} (values : list A) (b : Z) :
  0 < b -> concat (chunks values b) = values.
Proof.
  intros Hb. rewrite chunks_positive by done. rewrite concat_chunks_take.
  apply take_ge.
  pose proof (ceil_div_spec (Z.of_nat (length values)) b Hb). nia.
Qed.

Lemma length_chunks {A} (values : list A) (b : Z) :
  0 < b ->
  Z.of_nat (length (chunks values b)) = ceil_div (Z.of_nat (length values)) b.
Proof.
  intros Hb. rewrite chunks_positive by done.
  rewrite length_map, length_seq.
  pose proof (ceil_div_spec (Z.of_nat (length values)) b Hb). nia.
Qed.

Lemma lookup_chunks {A} (values : list A) (b : Z) (i : nat) (batch : list A) :
  0 < b -> chunks values b !! i = Some batch ->
  batch = take (Z.to_nat b) (drop (i * Z.to_nat b) values) /\
  0 < Z.of_nat (length batch) <= b.
Proof.
  intros Hb Hi. rewrite chunks_positive in Hi by done.
  rewrite list_lookup_fmap in Hi.
  destruct (seq 0 _ !! i) as [k|] eqn:Hk; [|discriminate].
  injection Hi as <-.
  apply lookup_seq in Hk as [-> Hlt]. simpl. split; [done|].
  pose proof (ceil_div_spec (Z.of_nat (length values)) b Hb).
  rewrite length_take, length_drop. nia.
Qed.

(** *** The three load operations *)

Lemma chunks_starts {A} (values : list A) (b : Z) :
  b <> 0 ->
  exists starts,
    py_range 0 (Z.of_nat (length values)) b = Ok starts /\
    chunks values b = map (batch_at values b) starts.
Proof.
  intros Hb. unfold chunks, py_range.
  assert ((b =? 0) = false) as -> by lia. eauto.
Qed.

Lemma chunks_nil {A} (b : Z) : chunks (@nil A) b = [].
Proof.
  unfold chunks, py_range. cbn [length Z.of_nat].
  destruct (b =? 0) eqn:E0; [done|].
  assert ((if 0 <? b then (Z.of_nat 0 - 0 + b - 1) / b
           else (0 - Z.of_nat 0 - b - 1) / - b) = 0) as ->.
  { destruct (0 <? b) eqn:E; apply Z.div_small; lia. }
  reflexivity.
Qed.

Lemma load_as_execute_query fault b op values ch :
  b <> 0 ->
  load fault b op values ch =
  _execute_query fault (load_query op) values b (enter (load_name op) ch).
Proof.
  intros Hb.
  assert (Hnil : forall q c, _execute_query fault q [] b c = (Ok tt, c)).
  { intros q c. unfold _execute_query.
    destruct (chunks_starts (@nil Row) b Hb) as [starts [Hr Hc]].
    rewrite Hr. rewrite chunks_nil in Hc.
    symmetry in Hc. apply map_eq_nil in Hc. by subst. }
  destruct op, values as [|v values];
    unfold load, save_repositories, save_positions, save_commits, load_query, load_name;
    rewrite ?Hnil; reflexivity.
Qed.

Lemma execute_query_ok fault query values b ch :
  b <> 0 ->
  (forall j batch,
     chunks values b !! j = Some batch ->
     fault (after query (take j (chunks values b)) (take j (chunks values b)) ch)
           query batch = None) ->
  _execute_query fault query values b ch =
    (Ok tt, after query (chunks values b) (chunks values b) ch).
Proof.
  intros Hb Hok. unfold _execute_query.
  destruct (chunks_starts values b Hb) as [starts [-> Hc]].
  rewrite Hc in *. apply insert_batches_ok.
  intros j i Hj. apply Hok. by rewrite list_lookup_fmap, Hj.
Qed.

Lemma execute_query_err fault query values b ch k batch e :
  b <> 0 ->
  chunks values b !! k = Some batch ->
  (forall j batch', (j < k)%nat ->
     chunks values b !! j = Some batch' ->
     fault (after query (take j (chunks values b)) (take j (chunks values b)) ch)
           query batch' = None) ->
  fault (after query (take k (chunks values b)) (take k (chunks values b)) ch)
        query batch = Some e ->
  _execute_query fault query values b ch =
    (Err e, after query (take (S k) (chunks values b)) (take k (chunks values b)) ch).
Proof.
  intros Hb Hk Hok Hbad. unfold _execute_query.
  destruct (chunks_starts values b Hb) as [starts [-> Hc]].
  rewrite Hc in *. rewrite list_lookup_fmap in Hk.
  destruct (starts !! k) as [i|] eqn:Hi; [|discriminate]. injection Hk as <-.
  apply (insert_batches_err fault query values b starts ch k i e Hi).
  - intros j i' Hlt Hj. apply (Hok j _ Hlt). by rewrite list_lookup_fmap, Hj.
  - exact Hbad.
Qed.

(** C2: with a batch size [b > 0] and [n] records, a load whose inserts
    all go through issues exactly [ceil(n / b)] inserts; the [i]-th carries
    the [b] records from offset [i * b] (fewer at the end of the list, never
    none), and the batches put end to end, in the order issued, are the
    input. *)
Theorem load_issues_ceil_batches (fault : Fault) (b : Z) (op : LoadOp)
    (values : list Row) (ch : ClickHouse) :
  0 < b ->
  (forall ch' batch, fault ch' (load_query op) batch = None) ->
  exists batches,
    load fault b op values ch =
      (Ok tt, {| invoked := invoked ch ++ [load_name op];
                 attempted := attempted ch ++ map (pair (load_query op)) batches;
                 committed := committed ch ++ map (pair (load_query op)) batches |}) /\
    Z.of_nat (length batches) = ceil_div (Z.of_nat (length values)) b /\
    b * (Z.of_nat (length batches) - 1) < Z.of_nat (length values)
      <= b * Z.of_nat (length batches) /\
    (forall i batch, batches !! i = Some batch ->
       batch = take (Z.to_nat b) (drop (i * Z.to_nat b) values) /\
       0 < Z.of_nat (length batch) <= b) /\
    concat batches = values.
Proof.
  intros Hb Hok. exists (chunks values b).
  split; [|split; [|split; [|split]]].
  - rewrite load_as_execute_query by lia.
    rewrite execute_query_ok; [reflexivity|lia|]. intros; apply Hok.
  - by apply length_chunks.
  - rewrite length_chunks by done. by apply ceil_div_spec.
  - intros i batch. by apply lookup_chunks.
  - by apply concat_chunks.
Qed.

Lemma load_issues_ceil_batches_witness :
  exists batches,
    load no_fault 2 SavePositions
      [[JInt 1]; [JInt 2]; [JInt 3]; [JInt 4]; [JInt 5]] empty_clickhouse =
      (Ok tt, {| invoked := ["save_positions"];
                 attempted := map (pair positions_query) batches;
                 committed := map (pair positions_query) batches |}) /\
    Z.of_nat (length batches) = 3.
Proof.
  destruct (load_issues_ceil_batches no_fault 2 SavePositions
              [[JInt 1]; [JInt 2]; [JInt 3]; [JInt 4]; [JInt 5]] empty_clickhouse)
    as [batches [Hrun [Hlen _]]].
  - lia.
  - reflexivity.
  - exists batches. split; [exact Hrun|]. rewrite Hlen. reflexivity.
Defined.

(** C4: each load operation, called with an empty list, returns without
    asking the client for anything: nothing is attempted and nothing is
    stored, whatever the batch size and the state of the client. *)
Theorem load_empty_is_noop (fault : Fault) (b : Z) (op : LoadOp) (ch : ClickHouse) :
  load fault b op [] ch =
    (Ok tt, {| invoked := invoked ch ++ [load_name op];
               attempted := attempted ch;
               committed := committed ch |}).
Proof. by destruct op. Qed.

(** C5: when the insert of batch [i] fails with [e] after the batches
    before it went through, the load raises [e]; the inserts attempted are
    the batches up to and including [i], so none after it, and the batches
    before [i] stay stored. *)
Theorem load_failure_keeps_prefix (fault : Fault) (b : Z) (op : LoadOp)
    (values : list Row) (ch : ClickHouse) (i : nat) (batch : list Row) (e : PyExc) :
  0 < b ->
  chunks values b !! i = Some batch ->
  (forall j batch', (j < i)%nat -> chunks values b !! j = Some batch' ->
     fault (stored_up_to op values b ch j) (load_query op) batch' = None) ->
  fault (stored_up_to op values b ch i) (load_query op) batch = Some e ->
  load fault b op values ch =
    (Err e, {| invoked := invoked ch ++ [load_name op];
               attempted := attempted ch ++
                 map (pair (load_query op)) (take (S i) (chunks values b));
               committed := committed ch ++
                 map (pair (load_query op)) (take i (chunks values b)) |}).
Proof.
  intros Hb Hi Hok Hbad. unfold stored_up_to in *.
  rewrite load_as_execute_query by lia.
  assert (Hb0 : b <> 0) by lia.
  by rewrite (execute_query_err _ _ _ _ _ i batch e Hb0 Hi Hok Hbad).
Qed.

Lemma load_failure_keeps_prefix_witness :
  load fault_after_two 1 SaveCommits [[JInt 1]; [JInt 2]; [JInt 3]; [JInt 4]]
       empty_clickhouse =
    (Err (ChError "down"),
     {| invoked := ["save_commits"];
        attempted := [(commits_query, [[JInt 1]]); (commits_query, [[JInt 2]]);
                      (commits_query, [[JInt 3]])];
        committed := [(commits_query, [[JInt 1]]); (commits_query, [[JInt 2]])] |}).
Proof.
  apply (load_failure_keeps_prefix fault_after_two 1 SaveCommits
           [[JInt 1]; [JInt 2]; [JInt 3]; [JInt 4]] empty_clickhouse
           2 [[JInt 3]] (ChError "down")).
  - lia.
  - reflexivity.
  - intros [|[|j]] batch' Hj Hb; [reflexivity|reflexivity|lia].
  - reflexivity.
Defined.

(** ** Processing one repository *)

Lemma process_repository_dict api m pos :
  _process_repository api (JObj m) pos =
  match m !! "owner" with
  | None => Err (KeyError "owner")
  | Some owner_obj =>
      login ← py_getitem owner_obj "login";
      authors_commits ← commits_stage api login (repo_name m);
      stars ← py_getitem (JObj m) "stargazers_count";
      watchers ← py_getitem (JObj m) "watchers_count";
      forks ← py_getitem (JObj m) "forks_count";
      Ok {| name := repo_name m; owner := login; position := pos;
            stars := stars; watchers := watchers; forks := forks;
            language := default (JStr "Unknown") (m !! "language");
            authors_commits_num_today := authors_commits |}
  end.
Proof.
  unfold _process_repository, commits_stage, repo_name. cbn.
  destruct (m !! "owner") as [owner_obj|]; cbn; [|reflexivity].
  destruct (py_getitem owner_obj "login") as [login|e]; cbn; [|reflexivity].
  destruct (_get_repository_commits api login _) as [commits|e]; cbn; [|reflexivity].
  destruct (py_iter commits) as [commit_list|e]; cbn; [|reflexivity].
  destruct (aggregate_commits commit_list) as [counts|e]; cbn; [|reflexivity].
  destruct (m !! "stargazers_count"); cbn; [|reflexivity].
  destruct (m !! "watchers_count"); cbn; [|reflexivity].
  destruct (m !! "forks_count"); cbn; [|reflexivity].
  destruct (m !! "language"); reflexivity.
Qed.

Lemma process_repository_not_dict api repo_data pos :
  (forall m, repo_data <> JObj m) ->
  _process_repository api repo_data pos = Err AttributeError.
Proof.
  intros H. destruct repo_data; try reflexivity. by destruct (H m).
Qed.

(** What a successful [_process_repository] read, and where. *)
Lemma process_repository_ok_inv api repo_data pos r :
  _process_repository api repo_data pos = Ok r ->
  exists m owner_obj login stars watchers forks,
    repo_data = JObj m /\
    m !! "owner" = Some (JObj owner_obj) /\
    owner_obj !! "login" = Some login /\
    m !! "stargazers_count" = Some stars /\
    m !! "watchers_count" = Some watchers /\
    m !! "forks_count" = Some forks /\
    commits_stage api login (repo_name m) = Ok (authors_commits_num_today r) /\
    r = {| name := repo_name m; owner := login; position := pos;
           stars := stars; watchers := watchers; forks := forks;
           language := default (JStr "Unknown") (m !! "language");
           authors_commits_num_today := authors_commits_num_today r |}.
Proof.
  intros H.
  destruct repo_data as [| | | | |m]; try discriminate.
  rewrite process_repository_dict in H.
  destruct (m !! "owner") as [owner_obj|] eqn:Ho; [|discriminate].
  destruct owner_obj as [| | | | |o]; try discriminate.
  cbn in H. destruct (o !! "login") as [login|] eqn:Hl; [|discriminate].
  cbn in H. destruct (commits_stage api login (repo_name m)) as [ac|] eqn:Hc;
    [|discriminate].
  cbn in H.
  destruct (m !! "stargazers_count") as [s|] eqn:Hs; [|discriminate]. cbn in H.
  destruct (m !! "watchers_count") as [w|] eqn:Hw; [|discriminate]. cbn in H.
  destruct (m !! "forks_count") as [f|] eqn:Hf; [|discriminate]. cbn in H.
  injection H as <-.
  exists m, o, login, s, w, f. simpl. done.
Qed.

Lemma process_repository_ok api m pos owner_obj login stars watchers forks counts :
  m !! "owner" = Some (JObj owner_obj) ->
  owner_obj !! "login" = Some login ->
  m !! "stargazers_count" = Some stars ->
  m !! "watchers_count" = Some watchers ->
  m !! "forks_count" = Some forks ->
  commits_stage api login (repo_name m) = Ok counts ->
  _process_repository api (JObj m) pos =
    Ok {| name := repo_name m; owner := login; position := pos;
          stars := stars; watchers := watchers; forks := forks;
          language := default (JStr "Unknown") (m !! "language");
          authors_commits_num_today := counts |}.
Proof.
  intros Ho Hl Hs Hw Hf Hc. rewrite process_repository_dict, Ho. cbn.
  rewrite Hl. cbn. rewrite Hc. cbn. rewrite Hs. cbn. rewrite Hw. cbn.
  rewrite Hf. reflexivity.
Qed.

(** ** [gather] *)

Lemma gather_ok_inv {A} sched (rs : list (Result A)) vs :
  gather sched rs = Ok vs -> rs = Ok <$> vs.
Proof.
  unfold gather. destruct (failures rs) eqn:Hf; [|discriminate].
  intros [= <-]. induction rs as [|[a|e] rs IH]; simpl in *.
  - reflexivity.
  - f_equal. by apply IH.
  - discriminate.
Qed.

Lemma gather_all_ok {A} sched (rs : list (Result A)) :
  Forall (fun r => is_ok r = true) rs ->
  gather sched rs = Ok (successes rs) /\ rs = Ok <$> successes rs.
Proof.
  intros H.
  assert (failures rs = []) as Hf.
  { induction H as [|[a|e] rs Hr _ IH]; simpl; [done|done|discriminate]. }
  assert (gather sched rs = Ok (successes rs)) as Hg.
  { unfold gather. by rewrite Hf. }
  split; [exact Hg|]. by apply (gather_ok_inv sched).
Qed.

Lemma elem_of_failures {A} (rs : list (Result A)) e :
  e ∈ failures rs <-> Err e ∈ rs.
Proof.
  induction rs as [|[a|e'] rs IH]; simpl.
  - split; intros H; by apply elem_of_nil in H.
  - rewrite elem_of_cons, IH. split; [auto|]. intros [H|H]; [discriminate|done].
  - rewrite !elem_of_cons, IH. split; intros [H|H]; auto; left; congruence.
Qed.

(** One failed task is enough: [gather] raises, and what it raises is the
    exception of some failed task. *)
Lemma gather_err {A} sched (rs : list (Result A)) e0 :
  Err e0 ∈ rs -> exists e, gather sched rs = Err e /\ Err e ∈ rs.
Proof.
  intros Hin. apply elem_of_failures in Hin. unfold gather.
  destruct (failures rs) as [|e es] eqn:Hf; [by apply elem_of_nil in Hin|].
  eexists. split; [reflexivity|].
  apply elem_of_failures. rewrite Hf.
  destruct (Nat.lt_ge_cases (sched (e :: es)) (length (e :: es))) as [Hlt|Hge].
  - apply list_elem_of_In, nth_In, Hlt.
  - rewrite nth_overflow by done. apply elem_of_cons; auto.
Qed.

(** ** [get_repositories] *)

Lemma get_repositories_tasks api sched limit items :
  _get_top_repositories api limit = Ok (JArr items) ->
  get_repositories api sched limit =
  gather sched
    (imap (fun idx repo => _process_repository api repo (Z.of_nat idx + 1)) items).
Proof. intros H. unfold get_repositories. rewrite H. reflexivity. Qed.

(** C3: when the list call returns [limit] items and every repository is
    processed, [get_repositories] returns [limit] results; the result at
    index [i] (from 0) is the one built from item [i] and carries position
    [i + 1], whatever the record's star count says. *)
Theorem get_repositories_positions (api : GithubAPI) (sched : list PyExc -> nat)
    (limit : Z) (items : list json) :
  0 <= limit ->
  _get_top_repositories api limit = Ok (JArr items) ->
  Z.of_nat (length items) = limit ->
  (forall i repo, items !! i = Some repo ->
     is_ok (_process_repository api repo (Z.of_nat i + 1)) = true) ->
  exists repos,
    get_repositories api sched limit = Ok repos /\
    Z.of_nat (length repos) = limit /\
    (forall i repo, items !! i = Some repo ->
       exists r, repos !! i = Some r /\
         _process_repository api repo (Z.of_nat i + 1) = Ok r /\
         position r = Z.of_nat i + 1) /\
    position <$> repos = (fun i => Z.of_nat i + 1) <$> seq 0 (Z.to_nat limit).
Proof.
  intros Hlimit Htop Hlen Hall.
  rewrite (get_repositories_tasks _ _ _ _ Htop).
  set (tasks := imap _ items).
  destruct (gather_all_ok sched tasks) as [Hg Hrs].
  { apply Forall_lookup. intros i r Hi. unfold tasks in Hi.
    rewrite list_lookup_imap in Hi.
    destruct (items !! i) as [repo|] eqn:Hrepo; [|discriminate].
    injection Hi as <-. by apply Hall. }
  set (repos := successes tasks) in *.
  assert (Hlen' : length repos = length items).
  { rewrite <- (length_fmap Ok repos), <- Hrs. apply length_imap. }
  assert (Hith : forall i repo, items !! i = Some repo ->
            exists r, repos !! i = Some r /\
              _process_repository api repo (Z.of_nat i + 1) = Ok r /\
              position r = Z.of_nat i + 1).
  { intros i repo Hi.
    assert (tasks !! i = Some (_process_repository api repo (Z.of_nat i + 1))) as Ht.
    { unfold tasks. by rewrite list_lookup_imap, Hi. }
    rewrite Hrs, list_lookup_fmap in Ht.
    destruct (repos !! i) as [r|]; [|discriminate].
    injection Ht as Ht. exists r. split; [done|]. split; [done|].
    symmetry in Ht.
    destruct (process_repository_ok_inv _ _ _ _ Ht)
      as (m & o & l & s & w & f & _ & _ & _ & _ & _ & _ & _ & ->). done. }
  exists repos. split; [exact Hg|]. split; [lia|]. split; [exact Hith|].
  apply list_eq. intros i. rewrite !list_lookup_fmap.
  destruct (items !! i) as [repo|] eqn:Hi.
  - destruct (Hith i repo Hi) as (r & -> & _ & Hp). simpl.
    assert (seq 0 (Z.to_nat limit) !! i = Some i) as ->.
    { apply lookup_seq. apply lookup_lt_Some in Hi. lia. }
    simpl. by rewrite Hp.
  - apply lookup_ge_None in Hi.
    rewrite (lookup_ge_None_2 repos) by lia.
    rewrite (lookup_ge_None_2 (seq _ _)); [done|]. rewrite length_seq. lia.
Qed.

(** The only way [get_repositories] returns is with every task done. *)
Lemma get_repositories_ok_inv api sched limit items repos :
  _get_top_repositories api limit = Ok (JArr items) ->
  get_repositories api sched limit = Ok repos ->
  forall i repo, items !! i = Some repo ->
    is_ok (_process_repository api repo (Z.of_nat i + 1)) = true.
Proof.
  intros Htop Hg i repo Hi.
  rewrite (get_repositories_tasks _ _ _ _ Htop) in Hg.
  apply gather_ok_inv in Hg.
  assert (imap (fun idx repo => _process_repository api repo (Z.of_nat idx + 1))
            items !! i = Some (_process_repository api repo (Z.of_nat i + 1))) as Ht.
  { by rewrite list_lookup_imap, Hi. }
  rewrite Hg, list_lookup_fmap in Ht.
  destruct (repos !! i); [|discriminate]. injection Ht as <-. done.
Qed.

Lemma get_repositories_positions_witness :
  exists repos,
    get_repositories sample_api (fun _ => 0%nat) 2 = Ok repos /\
    position <$> repos = [1; 2].
Proof.
  destruct (get_repositories_positions sample_api (fun _ => 0%nat) 2
              [sample_repo "low" 10; sample_repo "high" 90])
    as (repos & Hg & _ & _ & Hp).
  - lia.
  - vm_compute. reflexivity.
  - reflexivity.
  - intros [|[|i]] repo Hi; [| |discriminate];
      injection Hi as <-; vm_compute; reflexivity.
  - exists repos. split; [exact Hg|exact Hp].
Defined.

(** ** Records with missing fields *)

Lemma process_repository_no_owner api m pos :
  m !! "owner" = None ->
  _process_repository api (JObj m) pos = Err (KeyError "owner").
Proof. intros H. by rewrite process_repository_dict, H. Qed.

Lemma process_repository_no_login api m pos owner_obj :
  m !! "owner" = Some (JObj owner_obj) -> owner_obj !! "login" = None ->
  _process_repository api (JObj m) pos = Err (KeyError "login").
Proof. intros H Hl. rewrite process_repository_dict, H. cbn. by rewrite Hl. Qed.

Lemma process_repository_no_count api m pos owner_obj login counts key :
  m !! "owner" = Some (JObj owner_obj) -> owner_obj !! "login" = Some login ->
  commits_stage api login (repo_name m) = Ok counts ->
  first_missing_count m = Some key ->
  _process_repository api (JObj m) pos = Err (KeyError key).
Proof.
  intros H Hl Hc Hk. rewrite process_repository_dict, H. cbn.
  rewrite Hl. cbn. rewrite Hc. cbn. unfold first_missing_count in Hk.
  destruct (m !! "stargazers_count"); cbn; [|congruence].
  destruct (m !! "watchers_count"); cbn; [|congruence].
  destruct (m !! "forks_count"); cbn; [discriminate|congruence].
Qed.

Lemma process_repository_malformed api m pos :
  lacks_required_field m = true ->
  exists e, _process_repository api (JObj m) pos = Err e.
Proof.
  intros H.
  destruct (_process_repository api (JObj m) pos) as [r|e] eqn:Hr; [|eauto].
  exfalso.
  destruct (process_repository_ok_inv _ _ _ _ Hr)
    as (m' & o & l & s & w & f & [= <-] & Ho & Hl & Hs & Hw & Hf & _).
  unfold lacks_required_field, has_owner_login, first_missing_count in H.
  rewrite Ho, Hl, Hs, Hw, Hf in H. discriminate.
Qed.

(** C6 (as the code has it): a record without an owner login or without
    one of the three counts makes [get_repositories] raise, and [main]
    hands that exception on without entering any [save_*] method: the
    client is left as it was. The exception is the one some task raised.
    When the other tasks succeed it is the one of the record itself: the
    [KeyError] of ["owner"] or ["login"] when that key is missing, a
    [TypeError] when the owner is there but is not an object, and, when
    the owner login can be read, the failure of fetching and counting the
    commits if there is one, else the [KeyError] of the first missing
    count. *)
Theorem malformed_record_aborts_run (cfg : Config) (api : GithubAPI)
    (fault : Fault) (sched : list PyExc -> nat) (now : datetime)
    (ch : ClickHouse) (items : list json) (i : nat) (m : gmap string json) :
  _get_top_repositories api (REPOSITORY_LIMIT cfg) = Ok (JArr items) ->
  items !! i = Some (JObj m) ->
  lacks_required_field m = true ->
  exists e,
    get_repositories api sched (REPOSITORY_LIMIT cfg) = Err e /\
    main cfg api fault sched now ch = (Err e, ch) /\
    (exists j repo, items !! j = Some repo /\
       _process_repository api repo (Z.of_nat j + 1) = Err e) /\
    ((forall j repo, items !! j = Some repo -> j <> i ->
        is_ok (_process_repository api repo (Z.of_nat j + 1)) = true) ->
     (m !! "owner" = None -> e = KeyError "owner") /\
     (forall owner_val, m !! "owner" = Some owner_val ->
        (forall owner_obj, owner_val <> JObj owner_obj) -> e = TypeError) /\
     (forall owner_obj, m !! "owner" = Some (JObj owner_obj) ->
        owner_obj !! "login" = None -> e = KeyError "login") /\
     (forall owner_obj login e',
        m !! "owner" = Some (JObj owner_obj) ->
        owner_obj !! "login" = Some login ->
        commits_stage api login (repo_name m) = Err e' -> e = e') /\
     (forall owner_obj login counts key,
        m !! "owner" = Some (JObj owner_obj) ->
        owner_obj !! "login" = Some login ->
        commits_stage api login (repo_name m) = Ok counts ->
        first_missing_count m = Some key -> e = KeyError key)).
Proof.
  intros Htop Hi Hlack.
  destruct (process_repository_malformed api m (Z.of_nat i + 1) Hlack) as [ei Hei].
  set (tasks := imap (fun idx repo => _process_repository api repo (Z.of_nat idx + 1))
                  items).
  assert (Hin : Err ei ∈ tasks).
  { apply list_elem_of_lookup. exists i. unfold tasks.
    by rewrite list_lookup_imap, Hi, <- Hei. }
  destruct (gather_err sched tasks ei Hin) as (e & Hg & He).
  assert (Hget : get_repositories api sched (REPOSITORY_LIMIT cfg) = Err e).
  { by rewrite (get_repositories_tasks _ _ _ _ Htop). }
  apply list_elem_of_lookup in He as [j Hj]. unfold tasks in Hj.
  rewrite list_lookup_imap in Hj.
  destruct (items !! j) as [repo|] eqn:Hrepo; [|discriminate].
  injection Hj as Hj.
  exists e. split; [exact Hget|]. split; [|split].
  - unfold main. by rewrite Hget.
  - by exists j, repo.
  - intros Hothers.
    assert (j = i) as ->.
    { destruct (decide (j = i)) as [|Hne]; [done|].
      specialize (Hothers j repo Hrepo Hne). rewrite Hj in Hothers. discriminate. }
    rewrite Hi in Hrepo. injection Hrepo as <-.
    split; [|split; [|split; [|split]]].
    + intros Ho. rewrite (process_repository_no_owner _ _ _ Ho) in Hj. congruence.
    + intros v Ho Hno. rewrite process_repository_dict, Ho in Hj.
      destruct v as [| | | | |o]; [| | | | |by destruct (Hno o)];
        cbn in Hj; congruence.
    + intros o Ho Hl.
      rewrite (process_repository_no_login _ _ _ _ Ho Hl) in Hj. congruence.
    + intros o l e' Ho Hl Hc. rewrite process_repository_dict, Ho in Hj.
      cbn in Hj. rewrite Hl in Hj. cbn in Hj. rewrite Hc in Hj. cbn in Hj.
      congruence.
    + intros o l c k Ho Hl Hc Hk.
      rewrite (process_repository_no_count _ _ _ _ _ _ _ Ho Hl Hc Hk) in Hj.
      congruence.
Qed.

Lemma malformed_record_aborts_run_witness :
  main {| REPOSITORY_LIMIT := 1; BATCH_SIZE := 10000 |} starless_api no_fault
       (fun _ => 0%nat)
       {| year := 2025; month := 1; day := 2; hour := 3; minute := 4;
          second := 5; microsecond := 6 |}
       empty_clickhouse
  = (Err (KeyError "stargazers_count"), empty_clickhouse).
Proof.
  destruct (malformed_record_aborts_run
              {| REPOSITORY_LIMIT := 1; BATCH_SIZE := 10000 |} starless_api no_fault
              (fun _ => 0%nat)
              {| year := 2025; month := 1; day := 2; hour := 3; minute := 4;
                 second := 5; microsecond := 6 |}
              empty_clickhouse [JObj starless_record] 0 starless_record)
    as (e & _ & Hmain & _ & Hkey).
  - vm_compute. reflexivity.
  - reflexivity.
  - vm_compute. reflexivity.
  - rewrite Hmain. f_equal. f_equal.
    destruct Hkey as (_ & _ & _ & _ & Hcount).
    + intros [|j] repo Hj Hne; [destruct (Hne eq_refl)|discriminate Hj].
    + apply (Hcount (list_to_map [("login", JStr "o")]) (JStr "o")
               [{| author := KStr "a"; commits_num := 1 |}]);
        vm_compute; reflexivity.
Defined.

(** The record lacks [stargazers_count], yet what [get_repositories]
    raises is the failure of the commit lookup, not a [KeyError]. *)
Lemma missing_count_hidden_by_lookup_failure :
  _get_top_repositories starless_api_409 1 = Ok (JArr [JObj starless_record]) /\
  lacks_required_field starless_record = true /\
  forall sched,
    get_repositories starless_api_409 sched 1 = Err (ClientError 409) /\
    forall key, get_repositories starless_api_409 sched 1 <> Err (KeyError key).
Proof.
  split; [vm_compute; reflexivity|]. split; [vm_compute; reflexivity|].
  intros sched.
  assert (get_repositories starless_api_409 sched 1 = Err (ClientError 409)) as H.
  { rewrite (get_repositories_tasks _ _ _ [JObj starless_record])
      by (vm_compute; reflexivity).
    unfold gather.
    replace (failures _) with [ClientError 409] by (vm_compute; reflexivity).
    by destruct (sched _) as [|[|?]]. }
  split; [exact H|]. intros key. rewrite H. discriminate.
Qed.

(** C9: the [language] of the built [Repository] is the record's value
    whenever the key is there, a null included; ["Unknown"] stands in only
    for a record without the key. *)
Theorem null_language_is_kept (api : GithubAPI) (m : gmap string json)
    (pos : Z) (r : Repository) :
  _process_repository api (JObj m) pos = Ok r ->
  (m !! "language" = Some JNull -> language r = JNull) /\
  (forall v, m !! "language" = Some v -> language r = v) /\
  (m !! "language" = None -> language r = JStr "Unknown") /\
  (language r = JStr "Unknown" ->
     m !! "language" = None \/ m !! "language" = Some (JStr "Unknown")).
Proof.
  intros H.
  destruct (process_repository_ok_inv _ _ _ _ H)
    as (m' & o & l & s & w & f & [= <-] & _ & _ & _ & _ & _ & _ & ->).
  simpl. repeat split.
  - by intros ->.
  - by intros v ->.
  - by intros ->.
  - destruct (m !! "language") as [v|]; simpl; [|auto]. intros ->. auto.
Qed.

Lemma null_language_is_kept_witness :
  exists r,
    _process_repository sample_api (sample_repo "low" 10) 1 = Ok r /\
    language r = JNull.
Proof.
  destruct (_process_repository sample_api (sample_repo "low" 10) 1)
    as [r|e] eqn:Hr; [|vm_compute in Hr; discriminate Hr].
  exists r. split; [reflexivity|].
  apply (null_language_is_kept sample_api (sample_record "low" 10) 1 r Hr).
  vm_compute. reflexivity.
Defined.

(** C10 (as the code has it): a record without [name] is processed exactly
    as the same record named ["UNKNOWN"]. The missing key raises nothing by
    itself; the commits are looked up under [owner/UNKNOWN], and the
    repository is built, with that name, when this lookup and the other
    reads succeed. *)
Theorem missing_name_is_UNKNOWN (api : GithubAPI) (m : gmap string json) (pos : Z) :
  m !! "name" = None ->
  _process_repository api (JObj m) pos =
    _process_repository api (JObj (<["name" := JStr "UNKNOWN"]> m)) pos /\
  (forall r, _process_repository api (JObj m) pos = Ok r ->
     name r = JStr "UNKNOWN" /\
     exists commits,
       _get_repository_commits api (owner r) (JStr "UNKNOWN") = Ok commits) /\
  (forall owner_obj login stars watchers forks commits commit_list counts,
     m !! "owner" = Some (JObj owner_obj) ->
     owner_obj !! "login" = Some login ->
     m !! "stargazers_count" = Some stars ->
     m !! "watchers_count" = Some watchers ->
     m !! "forks_count" = Some forks ->
     _get_repository_commits api login (JStr "UNKNOWN") = Ok commits ->
     py_iter commits = Ok commit_list ->
     aggregate_commits commit_list = Ok counts ->
     _process_repository api (JObj m) pos =
       Ok {| name := JStr "UNKNOWN"; owner := login; position := pos;
             stars := stars; watchers := watchers; forks := forks;
             language := default (JStr "Unknown") (m !! "language");
             authors_commits_num_today := counts |}).
Proof.
  intros Hname.
  assert (Hrn : repo_name m = JStr "UNKNOWN") by (unfold repo_name; by rewrite Hname).
  split; [|split].
  - rewrite !process_repository_dict. unfold repo_name.
    rewrite lookup_insert_eq, Hname. simpl.
    rewrite !lookup_insert_ne by done. reflexivity.
  - intros r Hr.
    destruct (process_repository_ok_inv _ _ _ _ Hr)
      as (m' & o & l & s & w & f & [= <-] & _ & _ & _ & _ & _ & Hc & ->).
    simpl. split; [exact Hrn|].
    rewrite Hrn in Hc. unfold commits_stage in Hc.
    destruct (_get_repository_commits api l (JStr "UNKNOWN")) as [commits|];
      [eauto|discriminate].
  - intros o l s w f commits commit_list counts Ho Hl Hs Hw Hf Hg Hit Hagg.
    rewrite <- Hrn at 1.
    apply (process_repository_ok _ _ _ o); try done.
    unfold commits_stage. rewrite Hrn, Hg. cbn. rewrite Hit. cbn. exact Hagg.
Qed.

Lemma missing_name_is_UNKNOWN_witness :
  exists r,
    _process_repository sample_api (JObj nameless_record) 1 = Ok r /\
    name r = JStr "UNKNOWN".
Proof.
  destruct (missing_name_is_UNKNOWN sample_api nameless_record 1) as (_ & Hr & _).
  - reflexivity.
  - eexists. split; [vm_compute; reflexivity|].
    apply Hr. vm_compute. reflexivity.
Defined.

(** The record lacks only its name. Named [r] it is processed; nameless,
    the lookup goes to [o/UNKNOWN], fails, and the run is aborted. *)
Lemma missing_name_can_abort_run :
  nameless_record !! "name" = None /\
  is_ok (_process_repository only_r_api
           (JObj (<["name" := JStr "r"]> nameless_record)) 1) = true /\
  _process_repository only_r_api (JObj nameless_record) 1 = Err (ClientError 404) /\
  forall sched, get_repositories only_r_api sched 1 = Err (ClientError 404).
Proof.
  split; [reflexivity|]. split; [vm_compute; reflexivity|].
  split; [vm_compute; reflexivity|].
  intros sched.
  rewrite (get_repositories_tasks _ _ _ [JObj nameless_record])
    by (vm_compute; reflexivity).
  unfold gather.
  replace (failures _) with [ClientError 404] by (vm_compute; reflexivity).
  by destruct (sched _) as [|[|?]].
Qed.

(** ** The rows of one run *)

Lemma py_slice_subseteq {A} (values : list A) i j : py_slice values i j ⊆ values.
Proof.
  unfold py_slice. etrans; [apply subseteq_take|apply subseteq_drop].
Qed.

Lemma insert_batches_attempted fault query values b starts ch r ch' :
  insert_batches fault query values b starts ch = (r, ch') ->
  exists tried,
    attempted ch' = attempted ch ++ map (pair query) tried /\
    Forall (fun batch => batch ⊆ values) tried.
Proof.
  revert ch. induction starts as [|i starts IH]; intros ch H.
  - injection H as _ <-. exists []. simpl. by rewrite app_nil_r.
  - cbn [insert_batches] in H. unfold execute in H.
    destruct (fault ch query _) as [e|].
    + injection H as _ <-. exists [py_slice values i (i + b)]. simpl. split; [done|].
      constructor; [apply py_slice_subseteq|constructor].
    + apply IH in H as (tried & Ha & Hsub). simpl in Ha.
      exists (py_slice values i (i + b) :: tried). split.
      * rewrite Ha. simpl. by rewrite <- app_assoc.
      * constructor; [apply py_slice_subseteq|done].
Qed.

Lemma load_attempted fault b op values ch r ch' :
  load fault b op values ch = (r, ch') ->
  exists tried,
    attempted ch' = attempted ch ++ map (pair (load_query op)) tried /\
    Forall (fun batch => batch ⊆ values) tried.
Proof.
  assert (Hex : forall c, _execute_query fault (load_query op) values b c = (r, ch') ->
            exists tried, attempted ch' = attempted c ++ map (pair (load_query op)) tried /\
              Forall (fun batch => batch ⊆ values) tried).
  { intros c H. unfold _execute_query in H.
    destruct (py_range _ _ _) as [starts|e].
    - by eapply insert_batches_attempted.
    - injection H as _ <-. exists []. simpl. by rewrite app_nil_r. }
  intros H.
  destruct values as [|v values].
  - assert (ch' = enter (load_name op) ch) as -> by (destruct op; by injection H).
    exists []. simpl. by rewrite app_nil_r.
  - apply (Hex (enter (load_name op) ch)). by destruct op.
Qed.

Lemma save_all_attempted fault b sched repos positions commits ch :
  exists inserts,
    attempted (save_all fault b sched repos positions commits ch).2 =
      attempted ch ++ inserts /\
    forall q batch, (q, batch) ∈ inserts ->
      (q = repositories_query /\ batch ⊆ repos) \/
      (q = positions_query /\ batch ⊆ positions) \/
      (q = commits_query /\ batch ⊆ commits).
Proof.
  unfold save_all.
  destruct (save_repositories fault b repos ch) as [r1 ch1] eqn:H1.
  destruct (save_positions fault b positions ch1) as [r2 ch2] eqn:H2.
  destruct (save_commits fault b commits ch2) as [r3 ch3] eqn:H3.
  apply (load_attempted fault b SaveRepositories) in H1 as (t1 & Ha1 & Hs1).
  apply (load_attempted fault b SavePositions) in H2 as (t2 & Ha2 & Hs2).
  apply (load_attempted fault b SaveCommits) in H3 as (t3 & Ha3 & Hs3).
  exists (map (pair repositories_query) t1 ++ map (pair positions_query) t2 ++
          map (pair commits_query) t3).
  split.
  - simpl. rewrite Ha3, Ha2, Ha1. simpl. by rewrite <- !app_assoc.
  - intros q batch Hin. rewrite Forall_forall in Hs1, Hs2, Hs3.
    rewrite !elem_of_app in Hin.
    destruct Hin as [Hin|[Hin|Hin]];
      apply list_elem_of_fmap in Hin as (t & [= -> ->] & Ht); auto.
Qed.

Lemma repo_data_timestamp d repos row :
  row ∈ repo_data d repos -> row !! 6%nat = Some (JStr d).
Proof.
  unfold repo_data. intros H.
  apply list_elem_of_fmap in H as (r & -> & _). reflexivity.
Qed.

Lemma positions_data_timestamp d repos row :
  row ∈ positions_data d repos -> row !! 0%nat = Some (JStr d).
Proof.
  unfold positions_data. intros H.
  apply list_elem_of_fmap in H as (r & -> & _). reflexivity.
Qed.

Lemma commits_data_timestamp d repos row :
  row ∈ commits_data d repos -> row !! 0%nat = Some (JStr d).
Proof.
  unfold commits_data. intros H.
  apply list_elem_of_In, in_flat_map in H as (r & _ & H).
  apply in_map_iff in H as (ac & <- & _). reflexivity.
Qed.

(** C7: [date_today] is formatted once, from one clock reading and down
    to the second; every row of the three row sets holds it in its
    timestamp column, and so does every row [main] asks the client to
    insert. *)
Theorem main_rows_share_timestamp (cfg : Config) (api : GithubAPI)
    (fault : Fault) (sched : list PyExc -> nat) (now : datetime)
    (ch : ClickHouse) (repos : list Repository) :
  GithubReposScraper.get_repositories api sched (REPOSITORY_LIMIT cfg) = Ok repos ->
  main cfg api fault sched now ch =
    save_all fault (BATCH_SIZE cfg) sched
      (repo_data (strftime now) repos)
      (positions_data (strftime now) repos)
      (commits_data (strftime now) repos) ch /\
  (forall row, row ∈ repo_data (strftime now) repos ->
     row !! 6%nat = Some (JStr (strftime now))) /\
  (forall row, row ∈ positions_data (strftime now) repos ->
     row !! 0%nat = Some (JStr (strftime now))) /\
  (forall row, row ∈ commits_data (strftime now) repos ->
     row !! 0%nat = Some (JStr (strftime now))) /\
  (exists inserts,
     attempted (main cfg api fault sched now ch).2 = attempted ch ++ inserts /\
     forall query batch row, (query, batch) ∈ inserts -> row ∈ batch ->
       row !! timestamp_column query = Some (JStr (strftime now))) /\
  (forall now', same_second now now' -> strftime now' = strftime now).
Proof.
  intros Hget.
  assert (Hmain : main cfg api fault sched now ch =
            save_all fault (BATCH_SIZE cfg) sched
              (repo_data (strftime now) repos)
              (positions_data (strftime now) repos)
              (commits_data (strftime now) repos) ch).
  { unfold main. by rewrite Hget. }
  split; [exact Hmain|].
  split; [intros row; apply repo_data_timestamp|].
  split; [intros row; apply positions_data_timestamp|].
  split; [intros row; apply commits_data_timestamp|].
  split.
  - rewrite Hmain.
    destruct (save_all_attempted fault (BATCH_SIZE cfg) sched
                (repo_data (strftime now) repos)
                (positions_data (strftime now) repos)
                (commits_data (strftime now) repos) ch) as (inserts & Ha & Hin).
    exists inserts. split; [exact Ha|].
    intros query batch row Hq Hrow.
    destruct (Hin query batch Hq) as [[-> Hs]|[[-> Hs]|[-> Hs]]].
    + apply (repo_data_timestamp _ repos). by apply Hs.
    + apply (positions_data_timestamp _ repos). by apply Hs.
    + apply (commits_data_timestamp _ repos). by apply Hs.
  - intros now' (Hy & Hmo & Hd & Hh & Hmi & Hs). unfold strftime.
    by rewrite Hy, Hmo, Hd, Hh, Hmi, Hs.
Qed.

Lemma main_rows_share_timestamp_witness :
  GithubReposScraper.get_repositories sample_api (fun _ => 0%nat) 2 = Ok sample_repos /\
  strftime sample_now = "2025-03-07 01:02:59" /\
  Forall (fun row => row !! 0%nat = Some (JStr "2025-03-07 01:02:59"))
         (commits_data (strftime sample_now) sample_repos).
Proof.
  split; [vm_compute; reflexivity|]. split; [vm_compute; reflexivity|].
  apply Forall_forall. intros row.
  apply (main_rows_share_timestamp
           {| REPOSITORY_LIMIT := 2; BATCH_SIZE := 10000 |}
           sample_api no_fault (fun _ => 0%nat) sample_now empty_clickhouse).
  vm_compute. reflexivity.
Defined.

(** * Further properties *)

(** ** What a load can leave behind *)

Lemma chunks_negative {A} (values : list A) (b : Z) : b < 0 -> chunks values b = [].
Proof.
  intros Hb. unfold chunks, py_range.
  assert ((b =? 0) = false) as -> by lia.
  assert ((0 <? b) = false) as -> by lia.
  assert (Z.to_nat ((0 - Z.of_nat (length values) - b - 1) / - b) = 0%nat) as ->.
  { assert ((0 - Z.of_nat (length values) - b - 1) / - b < 1); [|lia].
    apply Z.div_lt_upper_bound; lia. }
  reflexivity.
Qed.

Lemma chunks_zero {A} (values : list A) : chunks values 0 = [].
Proof. reflexivity. Qed.

Lemma insert_batches_outcome fault query values b starts ch r ch' :
  insert_batches fault query values b starts ch = (r, ch') ->
  exists k,
    (k <= length starts)%nat /\
    match r with
    | Ok _ =>
        k = length starts /\
        ch' = after query (map (batch_at values b) starts)
                (map (batch_at values b) starts) ch
    | Err e =>
        ch' = after query (take (S k) (map (batch_at values b) starts))
                (take k (map (batch_at values b) starts)) ch /\
        exists i, starts !! k = Some i /\
          fault (after query (take k (map (batch_at values b) starts))
                   (take k (map (batch_at values b) starts)) ch)
                query (batch_at values b i) = Some e
    end.
Proof.
  revert ch. induction starts as [|i starts IH]; intros ch H.
  - injection H as <- <-. exists 0%nat. simpl. by rewrite after_nil.
  - cbn [insert_batches] in H. fold (batch_at values b i) in H.
    destruct (fault ch query (batch_at values b i)) as [e|] eqn:Hf.
    + rewrite (execute_err _ _ _ _ _ Hf) in H. injection H as <- <-.
      exists 0%nat. split; [simpl; lia|]. split; [reflexivity|].
      exists i. split; [reflexivity|]. simpl. by rewrite after_nil.
    + rewrite (execute_ok _ _ _ _ Hf) in H.
      apply IH in H as (k & Hk & Hr). exists (S k). split; [simpl; lia|].
      destruct r as [u|e].
      * destruct Hr as [-> ->]. split; [reflexivity|]. by rewrite after_after.
      * destruct Hr as (-> & i' & Hi' & Hbad). split.
        -- by rewrite after_after.
        -- exists i'. split; [exact Hi'|]. rewrite after_after in Hbad. exact Hbad.
Qed.

Lemma execute_query_outcome fault query values b ch r ch' :
  b <> 0 ->
  _execute_query fault query values b ch = (r, ch') ->
  exists k,
    (k <= length (chunks values b))%nat /\
    match r with
    | Ok _ =>
        k = length (chunks values b) /\
        ch' = after query (chunks values b) (chunks values b) ch
    | Err e =>
        ch' = after query (take (S k) (chunks values b)) (take k (chunks values b)) ch /\
        exists batch, chunks values b !! k = Some batch /\
          fault (after query (take k (chunks values b)) (take k (chunks values b)) ch)
                query batch = Some e
    end.
Proof.
  intros Hb H. unfold _execute_query in H.
  destruct (chunks_starts values b Hb) as [starts [Hr Hc]].
  rewrite Hr in H. rewrite Hc.
  apply insert_batches_outcome in H as (k & Hk & H).
  exists k. split; [by rewrite length_map|].
  destruct r as [u|e]; [by rewrite length_map|].
  destruct H as (-> & i & Hi & Hbad). split; [reflexivity|].
  exists (batch_at values b i). split; [|exact Hbad].
  by rewrite list_lookup_fmap, Hi.
Qed.

(** X1: whatever the client does, a load with a non-zero batch size stores
    a prefix of its batches, in order, and stops at the first insert that
    fails: it returns after the last batch, or raises the exception of the
    first failed insert, which is the only attempt that is not stored. *)
Theorem load_outcome_is_prefix (fault : Fault) (b : Z) (op : LoadOp)
    (values : list Row) (ch : ClickHouse) (r : Result unit) (ch' : ClickHouse) :
  b <> 0 ->
  load fault b op values ch = (r, ch') ->
  exists k,
    (k <= length (chunks values b))%nat /\
    invoked ch' = invoked ch ++ [load_name op] /\
    committed ch' =
      committed ch ++ map (pair (load_query op)) (take k (chunks values b)) /\
    ((r = Ok tt /\ k = length (chunks values b) /\
      attempted ch' =
        attempted ch ++ map (pair (load_query op)) (chunks values b)) \/
     (exists e batch,
        r = Err e /\
        chunks values b !! k = Some batch /\
        fault (stored_up_to op values b ch k) (load_query op) batch = Some e /\
        attempted ch' =
          attempted ch ++ map (pair (load_query op)) (take (S k) (chunks values b)))).
Proof.
  intros Hb H. rewrite load_as_execute_query in H by done.
  apply execute_query_outcome in H as (k & Hk & H); [|done].
  exists k. split; [exact Hk|].
  destruct r as [[]|e].
  - destruct H as [-> ->]. simpl. rewrite firstn_all.
    split; [reflexivity|]. split; [reflexivity|]. left. done.
  - destruct H as (-> & batch & Hbatch & Hbad). simpl.
    split; [reflexivity|]. split; [reflexivity|]. right.
    exists e, batch. auto.
Qed.

Lemma load_outcome_is_prefix_witness :
  exists k,
    (k <= 4)%nat /\
    committed
      (load fault_after_two 1 SaveCommits [[JInt 1]; [JInt 2]; [JInt 3]; [JInt 4]]
            empty_clickhouse).2 =
    map (pair commits_query) (take k [[[JInt 1]]; [[JInt 2]]; [[JInt 3]]; [[JInt 4]]]).
Proof.
  destruct (load_outcome_is_prefix fault_after_two 1 SaveCommits
              [[JInt 1]; [JInt 2]; [JInt 3]; [JInt 4]] empty_clickhouse
              (load fault_after_two 1 SaveCommits
                 [[JInt 1]; [JInt 2]; [JInt 3]; [JInt 4]] empty_clickhouse).1
              (load fault_after_two 1 SaveCommits
                 [[JInt 1]; [JInt 2]; [JInt 3]; [JInt 4]] empty_clickhouse).2)
    as (k & Hk & _ & Hc & _).
  - lia.
  - reflexivity.
  - exists k. split; [exact Hk|exact Hc].
Defined.

(** X2: when a load with a positive batch size returns normally, the rows
    it stored, batch after batch, are exactly the input rows in input
    order, whatever the client did in between. *)
Theorem load_ok_stores_input (fault : Fault) (b : Z) (op : LoadOp)
    (values : list Row) (ch ch' : ClickHouse) :
  0 < b ->
  load fault b op values ch = (Ok tt, ch') ->
  exists batches,
    committed ch' = committed ch ++ map (pair (load_query op)) batches /\
    attempted ch' = attempted ch ++ map (pair (load_query op)) batches /\
    concat batches = values.
Proof.
  intros Hb H. rewrite load_as_execute_query in H by lia.
  apply execute_query_outcome in H as (k & _ & _ & ->); [|lia].
  exists (chunks values b). simpl. split; [reflexivity|]. split; [reflexivity|].
  by apply concat_chunks.
Qed.

Lemma load_ok_stores_input_witness :
  exists batches,
    committed (load no_fault 2 SavePositions [[JInt 1]; [JInt 2]; [JInt 3]]
                 empty_clickhouse).2 = map (pair positions_query) batches /\
    concat batches = [[JInt 1]; [JInt 2]; [JInt 3]].
Proof.
  destruct (load_ok_stores_input no_fault 2 SavePositions
              [[JInt 1]; [JInt 2]; [JInt 3]] empty_clickhouse
              (load no_fault 2 SavePositions [[JInt 1]; [JInt 2]; [JInt 3]]
                 empty_clickhouse).2)
    as (batches & Hc & _ & Hcat).
  - lia.
  - reflexivity.
  - exists batches. split; [exact Hc|exact Hcat].
Defined.

(** ** Batch sizes that are not positive *)

Lemma load_negative fault b op values ch :
  b < 0 -> load fault b op values ch = (Ok tt, enter (load_name op) ch).
Proof.
  intros Hb. rewrite load_as_execute_query by lia.
  rewrite execute_query_ok; [|lia|].
  - rewrite chunks_negative by done. by rewrite after_nil.
  - rewrite chunks_negative by done. intros j batch Hj. discriminate.
Qed.

Lemma load_zero fault op values ch :
  values <> [] ->
  load fault 0 op values ch = (Err ValueError, enter (load_name op) ch).
Proof. intros Hne. destruct op, values; done. Qed.

Lemma enter_thrice a b c ch :
  enter c (enter b (enter a ch)) =
    {| invoked := invoked ch ++ [a; b; c];
       attempted := attempted ch;
       committed := committed ch |}.
Proof. unfold enter. cbn [invoked attempted committed]. by rewrite <- !app_assoc. Qed.

Lemma gather_same_error {A} sched (rs : list (Result A)) e :
  Err e ∈ rs -> (forall e', Err e' ∈ rs -> e' = e) -> gather sched rs = Err e.
Proof.
  intros Hin Hall. destruct (gather_err sched rs e Hin) as (e' & -> & He').
  by rewrite (Hall e' He').
Qed.

(** Rewrite with a fact about [load] where the goal names the method. *)
Ltac rewrite_load lem :=
  let H := fresh "Hload" in
  pose proof lem as H; cbn [load load_name load_query] in H; rewrite H; clear H.

(** X3: a negative [BATCH_SIZE] makes [range] empty. After a successful
    collection [main] then enters the three [save_*] methods, asks the
    client for nothing and returns normally: the run reports success and
    stores no row. *)
Theorem main_negative_batch_size_stores_nothing (cfg : Config) (api : GithubAPI)
    (fault : Fault) (sched : list PyExc -> nat) (now : datetime)
    (ch : ClickHouse) (repos : list Repository) :
  BATCH_SIZE cfg < 0 ->
  get_repositories api sched (REPOSITORY_LIMIT cfg) = Ok repos ->
  main cfg api fault sched now ch =
    (Ok tt, {| invoked := invoked ch ++
                 ["save_repositories"; "save_positions"; "save_commits"];
               attempted := attempted ch;
               committed := committed ch |}).
Proof.
  intros Hb Hget. unfold main. rewrite Hget. unfold save_all.
  rewrite_load (fun values ch => load_negative fault _ SaveRepositories values ch Hb).
  rewrite_load (fun values ch => load_negative fault _ SavePositions values ch Hb).
  rewrite_load (fun values ch => load_negative fault _ SaveCommits values ch Hb).
  cbn. by rewrite enter_thrice.
Qed.

Lemma main_negative_batch_size_stores_nothing_witness :
  main {| REPOSITORY_LIMIT := 2; BATCH_SIZE := -1 |} sample_api no_fault
       (fun _ => 0%nat) sample_now empty_clickhouse =
    (Ok tt, {| invoked := ["save_repositories"; "save_positions"; "save_commits"];
               attempted := []; committed := [] |}).
Proof.
  apply (main_negative_batch_size_stores_nothing
           {| REPOSITORY_LIMIT := 2; BATCH_SIZE := -1 |} sample_api no_fault
           (fun _ => 0%nat) sample_now empty_clickhouse sample_repos).
  - simpl. lia.
  - vm_compute. reflexivity.
Defined.

(** X4: with [BATCH_SIZE = 0] and at least one repository collected,
    [range] raises [ValueError] in [save_repositories] and
    [save_positions] before any insert: [main] raises [ValueError] and the
    client has been asked for nothing. *)
Theorem main_zero_batch_size_raises (cfg : Config) (api : GithubAPI)
    (fault : Fault) (sched : list PyExc -> nat) (now : datetime)
    (ch : ClickHouse) (repos : list Repository) :
  BATCH_SIZE cfg = 0 ->
  get_repositories api sched (REPOSITORY_LIMIT cfg) = Ok repos ->
  repos <> [] ->
  main cfg api fault sched now ch =
    (Err ValueError,
     {| invoked := invoked ch ++
          ["save_repositories"; "save_positions"; "save_commits"];
        attempted := attempted ch;
        committed := committed ch |}).
Proof.
  intros Hb Hget Hne. unfold main. rewrite Hget, Hb. unfold save_all.
  destruct repos as [|r repos]; [done|].
  rewrite_load (fun ch => load_zero fault SaveRepositories
                         (repo_data (strftime now) (r :: repos)) ch ltac:(done)).
  rewrite_load (fun ch => load_zero fault SavePositions
                         (positions_data (strftime now) (r :: repos)) ch ltac:(done)).
  assert (exists r3,
            save_commits fault 0 (commits_data (strftime now) (r :: repos))
              (enter "save_positions" (enter "save_repositories" ch)) =
            (r3, enter "save_commits"
                   (enter "save_positions" (enter "save_repositories" ch))) /\
            (r3 = Ok tt \/ r3 = Err ValueError)) as (r3 & -> & Hr3).
  { destruct (commits_data (strftime now) (r :: repos)) as [|row rows] eqn:Hc.
    - exists (Ok tt). auto.
    - exists (Err ValueError). split; [|auto].
      apply (load_zero fault SaveCommits (row :: rows)). done. }
  cbn [load_name]. f_equal.
  - rewrite (gather_same_error sched _ ValueError); [reflexivity| |].
    + apply elem_of_cons. auto.
    + intros e' He'. rewrite !elem_of_cons in He'.
      destruct He' as [He'|[He'|[He'|He']]]; try congruence.
      * destruct Hr3 as [-> | ->]; congruence.
      * by apply elem_of_nil in He'.
  - apply enter_thrice.
Qed.

Lemma main_zero_batch_size_raises_witness :
  main {| REPOSITORY_LIMIT := 2; BATCH_SIZE := 0 |} sample_api no_fault
       (fun _ => 0%nat) sample_now empty_clickhouse =
    (Err ValueError,
     {| invoked := ["save_repositories"; "save_positions"; "save_commits"];
        attempted := []; committed := [] |}).
Proof.
  apply (main_zero_batch_size_raises
           {| REPOSITORY_LIMIT := 2; BATCH_SIZE := 0 |} sample_api no_fault
           (fun _ => 0%nat) sample_now empty_clickhouse sample_repos).
  - reflexivity.
  - vm_compute. reflexivity.
  - discriminate.
Defined.

(** ** Inserts are never empty *)

Lemma load_attempts_shape fault b op values ch :
  exists tried,
    attempted (load fault b op values ch).2 =
      attempted ch ++ map (pair (load_query op)) tried /\
    Forall (fun batch => batch <> [] /\ Z.of_nat (length batch) <= b /\
                         batch ⊆ values) tried.
Proof.
  destruct (Z.eq_dec b 0) as [->|Hb].
  - exists []. split; [|constructor]. simpl. rewrite app_nil_r.
    destruct values as [|v values]; [by destruct op|].
    by rewrite load_zero.
  - destruct (load fault b op values ch) as [r ch'] eqn:H.
    rewrite load_as_execute_query in H by done.
    apply execute_query_outcome in H as (k & _ & H); [|done].
    assert (Hshape : forall n, Forall (fun batch => batch <> [] /\
                       Z.of_nat (length batch) <= b /\ batch ⊆ values)
                       (take n (chunks values b))).
    { intros n. apply Forall_take, Forall_lookup. intros i batch Hi.
      destruct (Z.lt_ge_cases b 0) as [Hneg|Hpos].
      - rewrite chunks_negative in Hi by done. discriminate.
      - pose proof (lookup_chunks values b i batch ltac:(lia) Hi) as [Hb' Hlen].
        split; [|split; [lia|]].
        + intros ->. simpl in Hlen. lia.
        + rewrite Hb'. etrans; [apply subseteq_take|apply subseteq_drop]. }
    destruct r as [u|e].
    + destruct H as [_ ->]. exists (chunks values b). split; [reflexivity|].
      rewrite <- (firstn_all (chunks values b)). apply Hshape.
    + destruct H as (-> & _). exists (take (S k) (chunks values b)).
      split; [reflexivity|apply Hshape].
Qed.

(** X5: every insert [main] asks of the client goes to one of the three
    tables and carries at least one row and at most [BATCH_SIZE] rows, for
    every configuration, API and client. No zero-row insert is issued. *)
Theorem main_inserts_are_nonempty (cfg : Config) (api : GithubAPI)
    (fault : Fault) (sched : list PyExc -> nat) (now : datetime)
    (ch : ClickHouse) :
  exists inserts,
    attempted (main cfg api fault sched now ch).2 = attempted ch ++ inserts /\
    forall query batch, (query, batch) ∈ inserts ->
      batch <> [] /\
      Z.of_nat (length batch) <= BATCH_SIZE cfg /\
      (query = repositories_query \/ query = positions_query \/
       query = commits_query).
Proof.
  unfold main.
  destruct (get_repositories api sched (REPOSITORY_LIMIT cfg)) as [repos|e].
  2:{ exists []. split; [by rewrite app_nil_r|].
      intros q batch H. by apply elem_of_nil in H. }
  unfold save_all.
  set (R := repo_data _ repos). set (P := positions_data _ repos).
  set (C := commits_data _ repos). set (b := BATCH_SIZE cfg).
  destruct (load_attempts_shape fault b SaveRepositories R ch) as (t1 & H1 & F1).
  cbn [load load_query] in H1.
  destruct (save_repositories fault b R ch) as [r1 ch1].
  destruct (load_attempts_shape fault b SavePositions P ch1) as (t2 & H2 & F2).
  cbn [load load_query] in H2.
  destruct (save_positions fault b P ch1) as [r2 ch2].
  destruct (load_attempts_shape fault b SaveCommits C ch2) as (t3 & H3 & F3).
  cbn [load load_query] in H3.
  destruct (save_commits fault b C ch2) as [r3 ch3].
  simpl in *.
  exists (map (pair repositories_query) t1 ++ map (pair positions_query) t2 ++
          map (pair commits_query) t3).
  split; [rewrite H3, H2, H1; by rewrite <- !app_assoc|].
  intros q batch Hin. rewrite Forall_forall in F1, F2, F3.
  rewrite !elem_of_app in Hin.
  destruct Hin as [Hin|[Hin|Hin]];
    apply list_elem_of_fmap in Hin as (t & [= -> ->] & Ht);
    [destruct (F1 _ Ht) as (? & ? & _)
    |destruct (F2 _ Ht) as (? & ? & _)
    |destruct (F3 _ Ht) as (? & ? & _)]; auto.
Qed.

(** ** The list call *)

(** X6: a search response without [items] counts as an empty list:
    [get_repositories] returns no repository and [main] enters the three
    [save_*] methods, each of which returns at once, so the client is asked
    for nothing, whatever the batch size. *)
Theorem search_without_items_is_empty_run (cfg : Config) (api : GithubAPI)
    (fault : Fault) (sched : list PyExc -> nat) (now : datetime)
    (ch : ClickHouse) (m : gmap string json) :
  (forall params, api SearchRepositories params = Ok (JObj m)) ->
  m !! "items" = None ->
  get_repositories api sched (REPOSITORY_LIMIT cfg) = Ok [] /\
  main cfg api fault sched now ch =
    (Ok tt, {| invoked := invoked ch ++
                 ["save_repositories"; "save_positions"; "save_commits"];
               attempted := attempted ch;
               committed := committed ch |}).
Proof.
  intros Hapi Hitems.
  assert (Hget : get_repositories api sched (REPOSITORY_LIMIT cfg) = Ok []).
  { unfold get_repositories, _get_top_repositories, _make_request.
    rewrite Hapi. cbn. rewrite Hitems. reflexivity. }
  split; [exact Hget|].
  unfold main. rewrite Hget. unfold save_all. simpl.
  by rewrite enter_thrice.
Qed.

Lemma search_without_items_is_empty_run_witness :
  main {| REPOSITORY_LIMIT := 5; BATCH_SIZE := 0 |}
       (fun _ _ => Ok (py_dict [("total_count", JInt 0)])) no_fault
       (fun _ => 0%nat) sample_now empty_clickhouse =
    (Ok tt, {| invoked := ["save_repositories"; "save_positions"; "save_commits"];
               attempted := []; committed := [] |}).
Proof.
  apply (search_without_items_is_empty_run
           {| REPOSITORY_LIMIT := 5; BATCH_SIZE := 0 |}
           (fun _ _ => Ok (py_dict [("total_count", JInt 0)])) no_fault
           (fun _ => 0%nat) sample_now empty_clickhouse
           (list_to_map [("total_count", JInt 0)])).
  - reflexivity.
  - reflexivity.
Defined.

(** X7: the [[]] default covers only a missing key. When [items] is
    present and holds a null, a boolean or a number, taking its length
    raises [TypeError]; [main] hands it on and the client is left as it
    was. *)
Theorem search_items_unsized_raises_TypeError (cfg : Config) (api : GithubAPI)
    (fault : Fault) (sched : list PyExc -> nat) (now : datetime)
    (ch : ClickHouse) (m : gmap string json) (v : json) :
  (forall params, api SearchRepositories params = Ok (JObj m)) ->
  m !! "items" = Some v ->
  v = JNull \/ (exists b, v = JBool b) \/ (exists z, v = JInt z) ->
  get_repositories api sched (REPOSITORY_LIMIT cfg) = Err TypeError /\
  main cfg api fault sched now ch = (Err TypeError, ch).
Proof.
  intros Hapi Hitems Hv.
  assert (Hget : get_repositories api sched (REPOSITORY_LIMIT cfg) = Err TypeError).
  { unfold get_repositories, _get_top_repositories, _make_request.
    rewrite Hapi. cbn. rewrite Hitems.
    destruct Hv as [->|[[b ->]|[z ->]]]; reflexivity. }
  split; [exact Hget|]. unfold main. by rewrite Hget.
Qed.

Lemma search_items_unsized_raises_TypeError_witness :
  main {| REPOSITORY_LIMIT := 5; BATCH_SIZE := 10 |}
       (fun _ _ => Ok (py_dict [("items", JNull)])) no_fault
       (fun _ => 0%nat) sample_now empty_clickhouse =
    (Err TypeError, empty_clickhouse).
Proof.
  apply (search_items_unsized_raises_TypeError
           {| REPOSITORY_LIMIT := 5; BATCH_SIZE := 10 |}
           (fun _ _ => Ok (py_dict [("items", JNull)])) no_fault
           (fun _ => 0%nat) sample_now empty_clickhouse
           (list_to_map [("items", JNull)]) JNull).
  - reflexivity.
  - reflexivity.
  - left. reflexivity.
Defined.

(** X8: [get_repositories] returns only when every listed repository was
    processed, and then with one [Repository] per listed item, in the
    order listed, numbered from 1. The [limit] it asked for plays no part:
    a longer or shorter list is taken as it comes. *)
Theorem get_repositories_follows_the_list (api : GithubAPI)
    (sched : list PyExc -> nat) (limit : Z) (items : list json)
    (repos : list Repository) :
  _get_top_repositories api limit = Ok (JArr items) ->
  get_repositories api sched limit = Ok repos ->
  length repos = length items /\
  forall i repo, items !! i = Some repo ->
    exists r, repos !! i = Some r /\
      _process_repository api repo (Z.of_nat i + 1) = Ok r /\
      position r = Z.of_nat i + 1.
Proof.
  intros Htop Hget.
  rewrite (get_repositories_tasks _ _ _ _ Htop) in Hget.
  apply gather_ok_inv in Hget.
  split.
  - rewrite <- (length_fmap Ok repos), <- Hget. apply length_imap.
  - intros i repo Hi.
    assert (imap (fun idx repo => _process_repository api repo (Z.of_nat idx + 1))
              items !! i = Some (_process_repository api repo (Z.of_nat i + 1)))
      as Ht by (by rewrite list_lookup_imap, Hi).
    rewrite Hget, list_lookup_fmap in Ht.
    destruct (repos !! i) as [r|]; [|discriminate].
    injection Ht as Ht. exists r. split; [done|]. split; [done|].
    symmetry in Ht.
    destruct (process_repository_ok_inv _ _ _ _ Ht)
      as (m & o & l & s & w & f & _ & _ & _ & _ & _ & _ & _ & ->). done.
Qed.

Lemma get_repositories_follows_the_list_witness :
  exists repos,
    get_repositories sample_api (fun _ => 0%nat) 1 = Ok repos /\
    length repos = 2%nat.
Proof.
  exists sample_repos.
  assert (H : get_repositories sample_api (fun _ => 0%nat) 1 = Ok sample_repos)
    by (vm_compute; reflexivity).
  split; [exact H|].
  apply (get_repositories_follows_the_list sample_api (fun _ => 0%nat) 1
           [sample_repo "low" 10; sample_repo "high" 90] sample_repos).
  - vm_compute. reflexivity.
  - exact H.
Defined.

(** ** The owner and the commits of one record *)

(** X9: an [owner] that is there but is not an object (a null, a string,
    a list, ...) cannot be indexed by ["login"]: the record fails with
    [TypeError], not with the [KeyError] of a missing field. *)
Theorem owner_not_object_raises_TypeError (api : GithubAPI)
    (m : gmap string json) (pos : Z) (owner_val : json) :
  m !! "owner" = Some owner_val ->
  (forall o, owner_val <> JObj o) ->
  _process_repository api (JObj m) pos = Err TypeError.
Proof.
  intros Ho Hno. rewrite process_repository_dict, Ho.
  destruct owner_val; try reflexivity. by destruct (Hno m0).
Qed.

Lemma owner_not_object_raises_TypeError_witness :
  _process_repository sample_api
    (py_dict [("name", JStr "r"); ("owner", JNull); ("stargazers_count", JInt 1);
              ("watchers_count", JInt 1); ("forks_count", JInt 1)]) 1
  = Err TypeError.
Proof.
  apply (owner_not_object_raises_TypeError sample_api
           (list_to_map [("name", JStr "r"); ("owner", JNull);
                         ("stargazers_count", JInt 1);
                         ("watchers_count", JInt 1); ("forks_count", JInt 1)])
           1 JNull).
  - reflexivity.
  - discriminate.
Defined.

(** ** More on the commit aggregation *)

Lemma commit_author_countable commit :
  is_ok (commit_author commit) = countable_commit commit.
Proof.
  destruct commit as [| | | | |m]; try reflexivity.
  unfold commit_author, countable_commit. cbn.
  destruct (m !! "author") as [a|]; [|reflexivity]. cbn.
  destruct (py_truthy a); [|reflexivity].
  destruct a as [| | | | |am]; try reflexivity. cbn.
  destruct (am !! "login") as [login|]; [|reflexivity].
  by destruct login.
Qed.

Lemma commit_author_error commit e :
  commit_author commit = Err e -> e = AttributeError \/ e = TypeError.
Proof.
  destruct commit as [| | | | |m]; try (intros [= <-]; auto).
  unfold commit_author. cbn.
  destruct (m !! "author") as [a|]; [|discriminate]. cbn.
  destruct (py_truthy a); [|discriminate].
  destruct a as [| | | | |am]; try (intros [= <-]; auto). cbn.
  destruct (am !! "login") as [login|]; [|discriminate].
  destruct login; try discriminate; intros [= <-]; auto.
Qed.

Lemma count_authors_error commits d e :
  count_authors commits d = Err e -> e = AttributeError \/ e = TypeError.
Proof.
  revert d. induction commits as [|c commits IH]; intros d H; [discriminate|].
  rewrite count_authors_cons in H.
  destruct (commit_author c) as [[k|]|e'] eqn:Hc; [by eapply IH|by eapply IH|].
  injection H as <-. by eapply commit_author_error.
Qed.

(** X10: the aggregation returns exactly when every commit record is an
    object whose author is missing or falsy, or is an object whose login is
    missing or hashable. One record of another shape (a non-object record,
    a string as author, a list as login) makes the whole aggregation raise,
    with [AttributeError] or [TypeError]. *)
Theorem aggregate_commits_returns_iff_countable (commits : list json) :
  is_ok (aggregate_commits commits) = forallb countable_commit commits /\
  forall e, aggregate_commits commits = Err e ->
    e = AttributeError \/ e = TypeError.
Proof.
  split.
  - unfold aggregate_commits.
    destruct (forallb countable_commit commits) eqn:Hall.
    + rewrite count_authors_fold; [reflexivity|].
      apply Forall_forall. intros c Hc. rewrite commit_author_countable.
      rewrite forallb_forall in Hall. by apply Hall, list_elem_of_In.
    + destruct (count_authors commits []) as [d|e] eqn:Hc; [|reflexivity].
      apply count_authors_ok in Hc. rewrite Forall_forall in Hc.
      assert (forallb countable_commit commits = true); [|congruence].
      apply forallb_forall. intros c Hin. rewrite <- commit_author_countable.
      by apply Hc, list_elem_of_In.
  - intros e. unfold aggregate_commits.
    destruct (count_authors commits []) as [d|e'] eqn:Hc; [discriminate|].
    intros [= <-]. by eapply count_authors_error.
Qed.

(** *** Order of the buckets *)

Lemma existsb_key_norm seen k :
  existsb (fun k0 => key_eqb k0 k) seen = true <->
  key_norm k ∈ key_norm <$> seen.
Proof.
  rewrite existsb_exists, list_elem_of_fmap. split.
  - intros (k0 & Hin & Heq). exists k0. split.
    + symmetry. by apply key_eqb_norm.
    + by apply list_elem_of_In.
  - intros (k0 & Heq & Hin). exists k0. split.
    + by apply list_elem_of_In.
    + apply key_eqb_norm. by symmetry.
Qed.

Lemma filter_filter_andb {A} (p q : A -> bool) l :
  List.filter p (List.filter q l) = List.filter (fun x => q x && p x) l.
Proof.
  induction l as [|x l IH]; [reflexivity|]. simpl.
  destruct (q x); simpl; [|exact IH]. destruct (p x); by rewrite IH.
Qed.

Lemma fresh_for_snoc seen k x :
  fresh_for (seen ++ [k]) x = negb (key_eqb k x) && fresh_for seen x.
Proof.
  unfold fresh_for. rewrite existsb_app. simpl. rewrite orb_false_r.
  destruct (existsb _ seen), (key_eqb k x); reflexivity.
Qed.

Lemma foldl_bump_keys ks (d : pydict) :
  (foldl bump d ks).*1 = d.*1 ++ List.filter (fresh_for d.*1) (first_seen ks).
Proof.
  revert d. induction ks as [|k ks IH]; intros d.
  - simpl. by rewrite app_nil_r.
  - cbn [foldl first_seen List.filter]. rewrite IH.
    destruct (existsb (fun k0 => key_eqb k0 k) d.*1) eqn:Hk.
    + assert (fresh_for d.*1 k = false) as -> by (unfold fresh_for; by rewrite Hk).
      pose proof (proj1 (existsb_key_norm _ _) Hk) as Hin.
      unfold bump. rewrite dict_set_keys_hit by done. f_equal.
      rewrite filter_filter_andb. apply filter_ext. intros x.
      destruct (fresh_for d.*1 x) eqn:Hx; [|by rewrite andb_false_r].
      rewrite andb_true_r. symmetry. apply negb_true_iff, key_eqb_false.
      intros Heq. unfold fresh_for in Hx. apply negb_true_iff in Hx.
      rewrite Heq in Hin. apply existsb_key_norm in Hin. congruence.
    + assert (fresh_for d.*1 k = true) as -> by (unfold fresh_for; by rewrite Hk).
      assert (key_norm k ∉ key_norm <$> d.*1) as Hout.
      { intros Hin. apply existsb_key_norm in Hin. congruence. }
      unfold bump. rewrite dict_set_keys_miss by done.
      rewrite <- app_assoc. simpl. f_equal. f_equal.
      rewrite filter_filter_andb. apply filter_ext. intros x.
      apply fresh_for_snoc.
Qed.

Lemma aggregate_commits_ok_shape commits counts :
  aggregate_commits commits = Ok counts ->
  counts = authors_commits_of (foldl bump [] (attributions commits)).
Proof.
  unfold aggregate_commits. intros H.
  destruct (count_authors commits []) as [d|e] eqn:Hc; [|discriminate].
  injection H as <-. pose proof (count_authors_ok _ _ _ Hc) as Hwf.
  rewrite (count_authors_fold _ _ Hwf) in Hc. by injection Hc as <-.
Qed.

(** X11: the emitted list follows the commits: one entry per distinct
    author, placed where that author first appears in the commit list. *)
Theorem aggregate_commits_first_seen_order (commits : list json)
    (counts : list RepositoryAuthorCommitsNum) :
  aggregate_commits commits = Ok counts ->
  author <$> counts = first_seen (attributions commits).
Proof.
  intros H. rewrite (aggregate_commits_ok_shape _ _ H).
  rewrite authors_of_authors_commits, foldl_bump_keys. simpl.
  induction (first_seen (attributions commits)) as [|k l IH]; [reflexivity|].
  simpl. by rewrite IH.
Qed.

Lemma aggregate_commits_first_seen_order_witness :
  exists counts,
    aggregate_commits [commit_by "b"; commit_by "a"; commit_by "b"] = Ok counts /\
    author <$> counts = [KStr "b"; KStr "a"].
Proof.
  destruct (aggregate_commits [commit_by "b"; commit_by "a"; commit_by "b"])
    as [counts|e] eqn:H; [|vm_compute in H; discriminate H].
  exists counts. split; [reflexivity|].
  rewrite (aggregate_commits_first_seen_order _ counts H).
  vm_compute. reflexivity.
Defined.

(** ** From the commits to the rows *)

Lemma dict_get_in (d : pydict) k dflt :
  dict_get d k dflt = dflt \/ exists k', (k', dict_get d k dflt) ∈ d.
Proof.
  induction d as [|[k0 v0] d IH]; simpl; [auto|].
  destruct (key_eqb k0 k).
  - right. exists k0. apply elem_of_cons. auto.
  - destruct IH as [IH|[k' IH]]; [auto|].
    right. exists k'. apply elem_of_cons. auto.
Qed.

Lemma dict_set_in (d : pydict) k v k1 v1 :
  (k1, v1) ∈ dict_set d k v -> (k1, v1) ∈ d \/ v1 = v.
Proof.
  induction d as [|[k0 v0] d IH]; simpl.
  - intros H. apply list_elem_of_singleton in H. right. congruence.
  - destruct (key_eqb k0 k); rewrite !elem_of_cons.
    + intros [H|H]; [right; congruence|auto].
    + intros [H|H]; [auto|]. destruct (IH H); auto.
Qed.

Lemma foldl_bump_positive ks (d : pydict) :
  (forall k v, (k, v) ∈ d -> 0 < v) ->
  forall k v, (k, v) ∈ foldl bump d ks -> 0 < v.
Proof.
  revert d. induction ks as [|k0 ks IH]; intros d Hd; [exact Hd|].
  simpl. apply IH. intros k v Hin. unfold bump in Hin.
  apply dict_set_in in Hin as [Hin| ->]; [by eapply Hd|].
  destruct (dict_get_in d k0 0) as [-> | [k' Hk']]; [lia|].
  apply Hd in Hk'. lia.
Qed.

Lemma aggregate_commits_positive commits counts :
  aggregate_commits commits = Ok counts ->
  forall ac, ac ∈ counts -> 0 < commits_num ac.
Proof.
  intros H ac Hac. rewrite (aggregate_commits_ok_shape _ _ H) in Hac.
  apply elem_of_authors_commits_of in Hac.
  eapply (foldl_bump_positive _ []); [|exact Hac].
  intros k v Hin. by apply elem_of_nil in Hin.
Qed.

Lemma aggregate_commits_length commits counts :
  aggregate_commits commits = Ok counts ->
  (length counts <= length commits)%nat.
Proof.
  intros H.
  assert (Hsum : sum_commits counts = Z.of_nat (length (attributions commits))).
  { rewrite (aggregate_commits_ok_shape _ _ H), sum_commits_of, dict_sum_foldl.
    simpl. lia. }
  assert (Hlen : Z.of_nat (length counts) <= sum_commits counts).
  { pose proof (aggregate_commits_positive _ _ H) as Hpos. clear H Hsum.
    induction counts as [|ac counts IH]; simpl; [lia|].
    assert (0 < commits_num ac) by (apply Hpos, elem_of_cons; auto).
    assert (Z.of_nat (length counts) <= sum_commits counts).
    { apply IH. intros ac' Hin. apply Hpos, elem_of_cons. auto. }
    lia. }
  assert (length (attributions commits) <= length commits)%nat.
  { rewrite length_attributions. apply filter_length_le. }
  lia.
Qed.

(** X12: the author counts of a returned [Repository] are the aggregation
    of the one commit page served for the owner and name that the same
    [Repository] carries: every count is positive and there are no more
    buckets than commits on that page. *)
Theorem repository_counts_come_from_its_commits (api : GithubAPI)
    (repo_data : json) (pos : Z) (r : Repository) :
  _process_repository api repo_data pos = Ok r ->
  exists commits commit_list,
    _get_repository_commits api (owner r) (name r) = Ok commits /\
    py_iter commits = Ok commit_list /\
    aggregate_commits commit_list = Ok (authors_commits_num_today r) /\
    (forall ac, ac ∈ authors_commits_num_today r -> 0 < commits_num ac) /\
    (length (authors_commits_num_today r) <= length commit_list)%nat.
Proof.
  intros H.
  destruct (process_repository_ok_inv _ _ _ _ H)
    as (m & o & l & s & w & f & _ & _ & _ & _ & _ & _ & Hc & Hr).
  assert (Hown : owner r = l) by (rewrite Hr; reflexivity).
  assert (Hname : name r = repo_name m) by (rewrite Hr; reflexivity).
  rewrite Hown, Hname. unfold commits_stage in Hc.
  destruct (_get_repository_commits api l (repo_name m)) as [commits|] eqn:Hg;
    [|discriminate].
  cbn in Hc. destruct (py_iter commits) as [commit_list|] eqn:Hit; [|discriminate].
  cbn in Hc. exists commits, commit_list.
  split; [reflexivity|]. split; [exact Hit|]. split; [exact Hc|]. split.
  - by apply (aggregate_commits_positive commit_list).
  - by apply aggregate_commits_length.
Qed.

Lemma repository_counts_come_from_its_commits_witness :
  exists r commit_list,
    _process_repository sample_api (sample_repo "low" 10) 1 = Ok r /\
    aggregate_commits commit_list = Ok (authors_commits_num_today r).
Proof.
  destruct (_process_repository sample_api (sample_repo "low" 10) 1)
    as [r|e] eqn:Hr; [|vm_compute in Hr; discriminate Hr].
  destruct (repository_counts_come_from_its_commits sample_api
              (sample_repo "low" 10) 1 r Hr)
    as (commits & commit_list & _ & _ & Hagg & _).
  exists r, commit_list. split; [reflexivity|exact Hagg].
Defined.

Lemma get_repositories_ok_elem api sched limit repos r :
  get_repositories api sched limit = Ok repos -> r ∈ repos ->
  exists repo pos, _process_repository api repo pos = Ok r.
Proof.
  unfold get_repositories. intros H Hr.
  destruct (_get_top_repositories api limit) as [top|]; [|discriminate]. cbn in H.
  destruct (py_iter top) as [items|]; [|discriminate]. cbn in H.
  apply gather_ok_inv in H.
  assert (Ok r ∈ Ok <$> repos) as Hin by (apply list_elem_of_fmap; eauto).
  rewrite <- H in Hin. apply list_elem_of_lookup in Hin as [i Hi].
  rewrite list_lookup_imap in Hi.
  destruct (items !! i) as [repo|]; [|discriminate]. injection Hi as Hi. eauto.
Qed.

(** X13: every author-commit row of a run has four columns: the run's
    timestamp, the name of one of the collected repositories, an author key
    and a commit count that is an integer of at least 1. *)
Theorem commit_rows_are_positive (api : GithubAPI) (sched : list PyExc -> nat)
    (limit : Z) (repos : list Repository) (d : string) (row : Row) :
  get_repositories api sched limit = Ok repos ->
  row ∈ commits_data d repos ->
  exists r k n,
    r ∈ repos /\
    row = [JStr d; name r; json_of_key k; JInt n] /\
    0 < n.
Proof.
  intros Hget Hrow. unfold commits_data in Hrow.
  apply list_elem_of_In, in_flat_map in Hrow as (r & Hr & Hrow).
  apply in_map_iff in Hrow as (ac & <- & Hac).
  apply list_elem_of_In in Hr, Hac.
  exists r, (author ac), (commits_num ac). split; [exact Hr|]. split; [reflexivity|].
  destruct (get_repositories_ok_elem _ _ _ _ _ Hget Hr) as (repo & pos & Hp).
  destruct (process_repository_ok_inv _ _ _ _ Hp)
    as (m & o & l & s & w & f & _ & _ & _ & _ & _ & _ & Hc & _).
  unfold commits_stage in Hc.
  destruct (_get_repository_commits api l (repo_name m)) as [commits|]; [|discriminate].
  cbn in Hc. destruct (py_iter commits) as [commit_list|]; [|discriminate].
  cbn in Hc. by apply (aggregate_commits_positive commit_list _ Hc).
Qed.

Lemma commit_rows_are_positive_witness :
  Forall (fun row => exists r k n,
            r ∈ sample_repos /\
            row = [JStr "today"; name r; json_of_key k; JInt n] /\ 0 < n)
         (commits_data "today" sample_repos).
Proof.
  apply Forall_forall. intros row.
  apply (commit_rows_are_positive sample_api (fun _ => 0%nat) 2 sample_repos).
  vm_compute. reflexivity.
Defined.

(** X14: the rows of the repositories and positions tables follow the
    list: row [i] of each is built from item [i], the repository row from
    its name (or ["UNKNOWN"]), owner login, the three counts as they stand
    and its language (or ["Unknown"]), the position row from its name and
    the rank [i + 1]. *)
Theorem rows_follow_the_list (api : GithubAPI) (sched : list PyExc -> nat)
    (limit : Z) (items : list json) (repos : list Repository) (d : string)
    (i : nat) (m : gmap string json) :
  _get_top_repositories api limit = Ok (JArr items) ->
  get_repositories api sched limit = Ok repos ->
  items !! i = Some (JObj m) ->
  positions_data d repos !! i =
    Some [JStr d; default (JStr "UNKNOWN") (m !! "name"); JInt (Z.of_nat i + 1)] /\
  exists owner_obj login stars watchers forks,
    m !! "owner" = Some (JObj owner_obj) /\
    owner_obj !! "login" = Some login /\
    m !! "stargazers_count" = Some stars /\
    m !! "watchers_count" = Some watchers /\
    m !! "forks_count" = Some forks /\
    repo_data d repos !! i =
      Some [default (JStr "UNKNOWN") (m !! "name"); login; stars; watchers; forks;
            default (JStr "Unknown") (m !! "language"); JStr d].
Proof.
  intros Htop Hget Hi.
  rewrite (get_repositories_tasks _ _ _ _ Htop) in Hget.
  apply gather_ok_inv in Hget.
  assert (imap (fun idx repo => _process_repository api repo (Z.of_nat idx + 1))
            items !! i = Some (_process_repository api (JObj m) (Z.of_nat i + 1)))
    as Ht by (by rewrite list_lookup_imap, Hi).
  rewrite Hget, list_lookup_fmap in Ht.
  destruct (repos !! i) as [r|] eqn:Hr; [|discriminate].
  injection Ht as Ht. symmetry in Ht.
  destruct (process_repository_ok_inv _ _ _ _ Ht)
    as (m' & o & l & s & w & f & [= <-] & Ho & Hl & Hs & Hw & Hf & _ & Hrec).
  unfold positions_data, repo_data. rewrite !list_lookup_fmap, Hr. simpl.
  rewrite Hrec. cbn [name position owner stars watchers forks language].
  unfold repo_name. split; [reflexivity|].
  exists o, l, s, w, f. done.
Qed.

Lemma rows_follow_the_list_witness :
  positions_data "today" sample_repos !! 1%nat =
    Some [JStr "today"; JStr "high"; JInt 2].
Proof.
  apply (rows_follow_the_list sample_api (fun _ => 0%nat) 2
           [sample_repo "low" 10; sample_repo "high" 90] sample_repos "today"
           1 (sample_record "high" 90)).
  - vm_compute. reflexivity.
  - vm_compute. reflexivity.
  - reflexivity.
Defined.

(** ** A whole run *)

Lemma rows_stored_app query log1 log2 :
  rows_stored query (log1 ++ log2) =
  rows_stored query log1 ++ rows_stored query log2.
Proof.
  unfold rows_stored. by rewrite List.filter_app, map_app, concat_app.
Qed.

Lemma rows_stored_same query batches :
  rows_stored query (map (pair query) batches) = concat batches.
Proof.
  unfold rows_stored. induction batches as [|b batches IH]; [reflexivity|].
  simpl. rewrite String.eqb_refl. simpl. by rewrite IH.
Qed.

Lemma rows_stored_other query query' batches :
  String.eqb query' query = false ->
  rows_stored query (map (pair query') batches) = [].
Proof.
  intros Hne. unfold rows_stored.
  induction batches as [|b batches IH]; [reflexivity|].
  simpl. rewrite Hne. exact IH.
Qed.

Lemma load_no_fault fault b op values ch :
  0 < b ->
  (forall ch' query batch, fault ch' query batch = None) ->
  load fault b op values ch =
    (Ok tt, after (load_query op) (chunks values b) (chunks values b)
              (enter (load_name op) ch)).
Proof.
  intros Hb Hok. rewrite load_as_execute_query by lia.
  apply execute_query_ok; [lia|]. intros; apply Hok.
Qed.

(** X15: with a positive batch size and a client that accepts every
    insert, a run whose collection succeeds returns normally and has added
    to each table exactly its row set, in order: one row per repository to
    the repositories and positions tables, one row per repository and
    author to the commits table. Nothing was attempted that is not
    stored. *)
Theorem main_stores_every_row (cfg : Config) (api : GithubAPI) (fault : Fault)
    (sched : list PyExc -> nat) (now : datetime) (ch : ClickHouse)
    (repos : list Repository) :
  0 < BATCH_SIZE cfg ->
  (forall ch' query batch, fault ch' query batch = None) ->
  get_repositories api sched (REPOSITORY_LIMIT cfg) = Ok repos ->
  exists ch' inserts,
    main cfg api fault sched now ch = (Ok tt, ch') /\
    attempted ch' = attempted ch ++ inserts /\
    committed ch' = committed ch ++ inserts /\
    rows_stored repositories_query inserts = repo_data (strftime now) repos /\
    rows_stored positions_query inserts = positions_data (strftime now) repos /\
    rows_stored commits_query inserts = commits_data (strftime now) repos.
Proof.
  intros Hb Hok Hget. unfold main. rewrite Hget. unfold save_all.
  set (R := repo_data _ repos). set (P := positions_data _ repos).
  set (C := commits_data _ repos). set (b := BATCH_SIZE cfg) in *.
  rewrite_load (fun ch => load_no_fault fault b SaveRepositories R ch Hb Hok).
  rewrite_load (fun ch => load_no_fault fault b SavePositions P ch Hb Hok).
  rewrite_load (fun ch => load_no_fault fault b SaveCommits C ch Hb Hok).
  eexists.
  exists (map (pair repositories_query) (chunks R b) ++
          map (pair positions_query) (chunks P b) ++
          map (pair commits_query) (chunks C b)).
  split; [reflexivity|].
  split; [simpl; by rewrite <- !app_assoc|].
  split; [simpl; by rewrite <- !app_assoc|].
  rewrite !rows_stored_app, !rows_stored_same.
  rewrite !rows_stored_other by reflexivity.
  rewrite !concat_chunks by done.
  rewrite !app_nil_r. done.
Qed.

Lemma main_stores_every_row_witness :
  exists ch',
    main {| REPOSITORY_LIMIT := 2; BATCH_SIZE := 1 |} sample_api no_fault
         (fun _ => 0%nat) sample_now empty_clickhouse = (Ok tt, ch') /\
    rows_stored positions_query (committed ch') =
      [[JStr "2025-03-07 01:02:59"; JStr "low"; JInt 1];
       [JStr "2025-03-07 01:02:59"; JStr "high"; JInt 2]].
Proof.
  destruct (main_stores_every_row
              {| REPOSITORY_LIMIT := 2; BATCH_SIZE := 1 |} sample_api no_fault
              (fun _ => 0%nat) sample_now empty_clickhouse sample_repos)
    as (ch' & inserts & Hmain & _ & Hc & _ & Hp & _).
  - simpl. lia.
  - reflexivity.
  - vm_compute. reflexivity.
  - exists ch'. split; [exact Hmain|].
    rewrite Hc. simpl. rewrite Hp. vm_compute. reflexivity.
Defined.

(** ** Request URLs, as strings *)

Lemma append_inj_l (p s t : string) : p +:+ s = p +:+ t -> s = t.
Proof.
  induction p as [|c p IH]; simpl; [done|]. intros [= H]. by apply IH.
Qed.

Lemma append_length (s t : string) :
  String.length (s +:+ t) = (String.length s + String.length t)%nat.
Proof. induction s as [|c s IH]; simpl; [done|]. by rewrite IH. Qed.

Lemma append_inj_r (s t p : string) : s +:+ p = t +:+ p -> s = t.
Proof.
  revert t. induction s as [|c s IH]; intros [|c' t] H; simpl in H.
  - done.
  - apply (f_equal String.length) in H. simpl in H.
    rewrite !append_length in H. simpl in H. lia.
  - apply (f_equal String.length) in H. simpl in H.
    rewrite !append_length in H. simpl in H. lia.
  - injection H as -> H. f_equal. by apply IH.
Qed.

Lemma split_at_first_slash (o o' t t' : string) :
  no_slash o = true -> no_slash o' = true ->
  o +:+ "/" +:+ t = o' +:+ "/" +:+ t' -> o = o' /\ t = t'.
Proof.
  revert o'. induction o as [|c o IH]; intros [|c' o'] Ho Ho' H.
  - injection H as H. done.
  - injection H as <- _. simpl in Ho'. discriminate.
  - injection H as -> _. simpl in Ho. discriminate.
  - injection H as -> H. simpl in Ho, Ho'.
    apply andb_true_iff in Ho as [_ Ho]. apply andb_true_iff in Ho' as [_ Ho'].
    destruct (IH o' Ho Ho' H) as [-> ->]. done.
Qed.

(** X16: the commits URL is the base URL, ["/repos/"], the owner, ["/"],
    the name and ["/commits"], with nothing escaped. For owner logins
    without a slash it tells the repositories apart: two calls with the
    same URL are calls for the same owner and name. *)
Theorem commits_url_determines_repository (owner repo owner' repo' : string) :
  no_slash owner = true -> no_slash owner' = true ->
  request_url (commits_endpoint owner repo) =
    request_url (commits_endpoint owner' repo') ->
  owner = owner' /\ repo = repo'.
Proof.
  intros Ho Ho' H. unfold request_url, commits_endpoint in H.
  apply append_inj_l, append_inj_l, append_inj_l in H.
  apply split_at_first_slash in H as [-> H]; [|done|done].
  split; [reflexivity|]. by apply append_inj_r in H.
Qed.

Lemma commits_url_determines_repository_witness :
  request_url (commits_endpoint "octo" "UNKNOWN") =
    "https://api.github.com/repos/octo/UNKNOWN/commits" /\
  ("octo" = "octo" /\ "UNKNOWN" = "UNKNOWN").
Proof.
  split; [reflexivity|].
  apply (commits_url_determines_repository "octo" "UNKNOWN" "octo" "UNKNOWN");
    reflexivity.
Defined.

(** ** Counts do not depend on the order of the commits *)

Lemma aggregate_commits_count commits counts ac :
  aggregate_commits commits = Ok counts -> ac ∈ counts ->
  commits_num ac =
    Z.of_nat (length (List.filter (authored_by (author ac)) commits)).
Proof.
  intros H Hac. rewrite (aggregate_commits_ok_shape _ _ H) in Hac.
  apply elem_of_authors_commits_of in Hac.
  assert (Hnd : NoDup (key_norm <$> (foldl bump [] (attributions commits)).*1)).
  { apply NoDup_foldl_bump. simpl. apply NoDup_nil_2. }
  rewrite <- (dict_get_hit _ _ _ Hnd Hac), dict_get_foldl. simpl.
  by rewrite count_attributions.
Qed.

Lemma aggregate_commits_covers commits counts c k :
  aggregate_commits commits = Ok counts ->
  c ∈ commits -> commit_author c = Ok (Some k) ->
  exists ac, ac ∈ counts /\ key_eqb (author ac) k = true.
Proof.
  intros H Hc Hk. rewrite (aggregate_commits_ok_shape _ _ H).
  assert (Hin : k ∈ attributions commits).
  { unfold attributions. apply list_elem_of_omap. exists c. by rewrite Hk. }
  pose proof (foldl_bump_keys_new _ [] k Hin) as Hnew.
  apply list_elem_of_fmap in Hnew as [k' [Heq Hk']].
  apply list_elem_of_fmap in Hk' as [[k'' v] [-> Hkv]]. simpl in Heq.
  exists {| author := k''; commits_num := v |}. split.
  - by apply elem_of_authors_commits_of.
  - simpl. apply key_eqb_norm. congruence.
Qed.

Lemma authored_by_key_eqb k k' c :
  key_eqb k k' = true -> authored_by k c = authored_by k' c.
Proof.
  intros Heq. unfold authored_by.
  destruct (commit_author c) as [[k0|]|e]; try reflexivity.
  apply key_eqb_norm in Heq.
  destruct (key_eqb k0 k) eqn:E.
  - apply key_eqb_norm in E. symmetry. apply key_eqb_norm. congruence.
  - apply key_eqb_false in E. symmetry. apply key_eqb_false. congruence.
Qed.

Lemma filter_length_Permutation {A} (p : A -> bool) l l' :
  Permutation l l' -> length (List.filter p l) = length (List.filter p l').
Proof.
  induction 1 as [|x l l' _ IH|x y l|l l' l'' _ IH1 _ IH2]; simpl.
  - reflexivity.
  - destruct (p x); simpl; congruence.
  - destruct (p x), (p y); reflexivity.
  - congruence.
Qed.

(** X17: the counts do not depend on the order in which the commits come:
    aggregating a rearranged list also returns, and every author has the
    same count there. Only the order of the buckets follows the commits. *)
Theorem aggregate_commits_ignores_commit_order (commits commits' : list json)
    (counts : list RepositoryAuthorCommitsNum) :
  Permutation commits commits' ->
  aggregate_commits commits = Ok counts ->
  exists counts',
    aggregate_commits commits' = Ok counts' /\
    (forall ac, ac ∈ counts ->
       exists ac', ac' ∈ counts' /\
         key_eqb (author ac') (author ac) = true /\
         commits_num ac' = commits_num ac) /\
    sum_commits counts' = sum_commits counts.
Proof.
  intros Hperm H.
  assert (Hwf : Forall (fun c => is_ok (commit_author c) = true) commits).
  { unfold aggregate_commits in H.
    destruct (count_authors commits []) as [d|] eqn:Hc; [|discriminate].
    by eapply count_authors_ok. }
  assert (Hwf' : Forall (fun c => is_ok (commit_author c) = true) commits').
  { by rewrite <- Hperm. }
  assert (H' : aggregate_commits commits' =
               Ok (authors_commits_of (foldl bump [] (attributions commits')))).
  { unfold aggregate_commits. by rewrite (count_authors_fold _ _ Hwf'). }
  eexists. split; [exact H'|]. split.
  - intros ac Hac.
    pose proof (aggregate_commits_count _ _ _ H Hac) as Hn.
    assert (Hpos : 0 < commits_num ac).
    { rewrite (aggregate_commits_ok_shape _ _ H) in Hac.
      apply elem_of_authors_commits_of in Hac.
      eapply (foldl_bump_positive _ []); [|exact Hac].
      intros k v Hin. by apply elem_of_nil in Hin. }
    destruct (List.filter (authored_by (author ac)) commits) as [|c cs] eqn:Hf;
      [simpl in Hn; lia|].
    assert (Hc : In c (List.filter (authored_by (author ac)) commits))
      by (rewrite Hf; left; reflexivity).
    apply filter_In in Hc as [Hc Hby].
    unfold authored_by in Hby.
    destruct (commit_author c) as [[k|]|] eqn:Hk; try discriminate.
    assert (Hc' : c ∈ commits') by (rewrite <- Hperm; by apply list_elem_of_In).
    destruct (aggregate_commits_covers _ _ _ _ H' Hc' Hk) as (ac' & Hac' & Heq).
    exists ac'. split; [exact Hac'|].
    assert (Hkk : key_eqb (author ac') (author ac) = true).
    { apply key_eqb_norm. apply key_eqb_norm in Heq, Hby. congruence. }
    split; [exact Hkk|].
    rewrite (aggregate_commits_count _ _ _ H' Hac'), Hn, <- Hf.
    f_equal. rewrite <- (filter_length_Permutation _ _ _ Hperm).
    f_equal. apply filter_ext. intros x. by apply authored_by_key_eqb.
  - rewrite (aggregate_commits_ok_shape _ _ H).
    rewrite !sum_commits_of, !dict_sum_foldl, !length_attributions. simpl.
    f_equal. f_equal. symmetry. by apply filter_length_Permutation.
Qed.

Lemma aggregate_commits_ignores_commit_order_witness :
  exists counts',
    aggregate_commits [commit_by "b"; commit_by "a"; commit_by "a"] = Ok counts' /\
    sum_commits counts' = 3.
Proof.
  destruct (aggregate_commits_ignores_commit_order
              [commit_by "a"; commit_by "b"; commit_by "a"]
              [commit_by "b"; commit_by "a"; commit_by "a"]
              [ {| author := KStr "a"; commits_num := 2 |};
                {| author := KStr "b"; commits_num := 1 |} ])
    as (counts' & H' & _ & Hsum).
  - apply perm_swap.
  - vm_compute. reflexivity.
  - exists counts'. split; [exact H'|]. rewrite Hsum. reflexivity.
Defined.

(** X18: ["unknown"] stands in only for an author object without a
    [login] key. A login that is present and null is counted under the
    null key, in a bucket of its own. *)
Theorem null_login_is_not_unknown (commits : list json)
    (counts : list RepositoryAuthorCommitsNum)
    (m a : gmap string json) :
  aggregate_commits commits = Ok counts ->
  JObj m ∈ commits ->
  m !! "author" = Some (JObj a) ->
  a !! "login" = Some JNull ->
  authored_by (KStr "unknown") (JObj m) = false /\
  exists ac, ac ∈ counts /\ author ac = KNone /\ 0 < commits_num ac.
Proof.
  intros H Hin Hm Ha.
  assert (Hk : commit_author (JObj m) = Ok (Some KNone)).
  { unfold commit_author. cbn. rewrite Hm. cbn.
    destruct (map_to_list a) eqn:E.
    - apply map_to_list_empty_iff in E. subst a. by rewrite lookup_empty in Ha.
    - cbn. rewrite Ha. reflexivity. }
  split; [unfold authored_by; by rewrite Hk|].
  destruct (aggregate_commits_covers _ _ _ _ H Hin Hk) as (ac & Hac & Heq).
  exists ac. split; [exact Hac|]. split.
  - by destruct (author ac).
  - rewrite (aggregate_commits_ok_shape _ _ H) in Hac.
    apply elem_of_authors_commits_of in Hac.
    eapply (foldl_bump_positive _ []); [|exact Hac].
    intros k v Hin'. by apply elem_of_nil in Hin'.
Qed.

Lemma null_login_is_not_unknown_witness :
  exists ac,
    ac ∈ [ {| author := KStr "a"; commits_num := 1 |};
           {| author := KNone; commits_num := 1 |} ] /\
    author ac = KNone.
Proof.
  destruct (null_login_is_not_unknown
              [commit_by "a"; py_dict [("author", py_dict [("login", JNull)])]]
              [ {| author := KStr "a"; commits_num := 1 |};
                {| author := KNone; commits_num := 1 |} ]
              (list_to_map [("author", py_dict [("login", JNull)])])
              (list_to_map [("login", JNull)]))
    as (_ & ac & Hac & Hk & _).
  - vm_compute. reflexivity.
  - apply elem_of_cons. right. apply elem_of_cons. left. reflexivity.
  - reflexivity.
  - reflexivity.
  - exists ac. split; [exact Hac|exact Hk].
Defined.
